(** * Q-vector table producer and JFluc weights loader: model and properties

    Shallow embedding of
      - [Common/TableProducer/qVectorsTable.cxx]   (module [QVectorsTable])
      - [PWGCF/JCorran/Tasks/jflucWeightsLoader.cxx] (module [JflucWeightsLoader])

    Numbers.  The C++ code computes in [float] (with [double] literals).  The
    model uses the real numbers [R]: every arithmetic operation and every
    comparison is the exact one, so rounding, overflow, NaN and the result
    of a division by zero are outside the model.  [int] values are [Z];
    container sizes and positions are [nat].

    Vectors.  [std::vector] is [list]; [push_back] appends at the end;
    [v[i]] is a total read ([vec_at], [!!!]) that yields [0] outside the
    vector, where C++ leaves the behaviour undefined; [v.at(i)] and [p->m()]
    on a null pointer are modelled as failures of the [result] monad.

    Histogram bookkeeping ([histosQA.fill]) and logging have no effect on the
    produced tables and are left out. *)

From Stdlib Require Import Reals Lra Lia ZArith.
From stdpp Require Import base list strings gmap pretty.

#[local] Open Scope R_scope.

(** ** Real comparisons as decidable tests *)

#[global] Instance R_inhabited : Inhabited R := populate 0.
#[global] Instance Rlt_decision : RelDecision Rlt := Rlt_dec.
#[global] Instance Rgt_decision : RelDecision Rgt := Rgt_dec.
#[global] Instance Rle_decision : RelDecision Rle := Rle_dec.
#[global] Instance Rge_decision : RelDecision Rge := Rge_dec.

(** ** Failures *)

Inductive error : Type :=
| Fatal (msg : string)   (* LOGF(fatal, ...) *)
| OutOfRange             (* std::vector::at past the end *)
| NullDeref.             (* member call through a null pointer *)

Inductive result (A : Type) : Type :=
| Ok (a : A)
| Err (e : error).
Arguments Ok {A} a.
Arguments Err {A} e.

Definition rbind {A B : Type} (c : result A) (k : A -> result B) : result B :=
  match c with
  | Ok a => k a
  | Err e => Err e
  end.

Notation "'let*' x ':=' c 'in' k" := (rbind c (fun x => k))
  (at level 10, x pattern, c at level 200, k at level 200).

(** [v[i]] for an [int] index. *)
Definition vec_at (v : list R) (i : Z) : R :=
  if (i <? 0)%Z then 0 else v !!! Z.to_nat i.

(** [static_cast<int>(x)]: truncation towards zero. *)
Definition static_cast_int (x : R) : Z :=
  if decide (0 <= x) then Int_part x else (- Int_part (- x))%Z.

(** [TComplex], with the only operations the task uses. *)
Record TComplex : Type := mkComplex { Re : R; Im : R }.

Definition TComplex_div (q : TComplex) (s : R) : TComplex :=
  mkComplex (Re q / s) (Im q / s).

(** * The weights loader: [jflucWeightsLoader.cxx] *)

Module JflucWeightsLoader.

(** The ROOT histogram of weights, by the two methods the task calls. *)
Record THnF : Type := {
  GetBin : list R -> Z;
  GetBinContent : Z -> R
}.

(** An open ROOT file: [Get(name)] is null when the file has no such object. *)
Record TFile : Type := { Get : string -> option THnF }.

Record CCDB : Type := {
  getForRun : string -> Z -> option THnF;
  getForTimeStamp : string -> Z -> option THnF
}.

Record Config : Type := {
  cfgForRunNumber : bool;
  cfgCCDBPath : string
}.

Record Collision : Type := {
  coll_runNumber : Z;
  multiplicity : R;
  posZ : R
}.

Record Track : Type := {
  phi : R;
  eta : R
}.

(** The members of the task; [ph] and [pf] are pointers, [None] when null. *)
Record TaskState : Type := {
  ph : option THnF;
  pf : option TFile;
  runNumber : Z;
  timestamp : Z;
  useCCDB : bool
}.

(** Lines 66-72: the value [initCCDB] stores in [ph]. *)
Definition initCCDB (cfg : Config) (ccdb : CCDB) (runNum ts : Z) : option THnF :=
  if cfgForRunNumber cfg then getForRun ccdb (cfgCCDBPath cfg) runNum
  else getForTimeStamp ccdb (cfgCCDBPath cfg) ts.

(** Lines 111-128: the fatal check and the reload on a new run number. *)
Definition reload (cfg : Config) (ccdb : CCDB) (st : TaskState)
    (collision : Collision) : result TaskState :=
  if negb (bool_decide (is_Some (pf st))) && negb (useCCDB st) then
    Err (Fatal "NUA correction weights file has not been opened.")
  else if decide (coll_runNumber collision = runNumber st) then Ok st
  else
    let run := coll_runNumber collision in
    if useCCDB st then
      Ok {| ph := initCCDB cfg ccdb run (timestamp st); pf := pf st;
            runNumber := run; timestamp := timestamp st; useCCDB := true |}
    else
      match pf st with
      | None => Err NullDeref
      | Some f =>
        Ok {| ph := Get f ("NUAWeights_" +:+ pretty run); pf := pf st;
              runNumber := run; timestamp := timestamp st; useCCDB := false |}
      end.

(** Lines 130-152: the row written for one track. *)
Definition weightRow (hist : option THnF) (collision : Collision)
    (track : Track) : R * R :=
  let phiWeight :=
    match hist with
    | Some h =>
      let partType := 0 in
      GetBinContent h
        (GetBin h [multiplicity collision; partType; phi track; eta track;
                   posZ collision])
    | None => 1
    end in
  let effWeight := 1 in
  (phiWeight, effWeight).

(** [loadWeights]: [outputT] is the table the rows are appended to. *)
Definition loadWeights (cfg : Config) (ccdb : CCDB) (st : TaskState)
    (outputT : list (R * R)) (collision : Collision) (tracks : list Track)
    : result (TaskState * list (R * R)) :=
  let* st' := reload cfg ccdb st collision in
  Ok (st', foldl (fun out track => out ++ [weightRow (ph st') collision track])
                 outputT tracks).

(** The members as the struct initialises them. *)
Definition initialState : TaskState :=
  {| ph := None; pf := None; runNumber := 0; timestamp := 0; useCCDB := false |}.

(** [s.find(sub) != std::string::npos]. *)
Fixpoint contains (sub s : string) : bool :=
  String.prefix sub s
  || match s with
     | EmptyString => false
     | String _ s' => contains sub s'
     end.

(** [s.substr(8)], reached only behind the test [s.substr(0, 8) == "local://"]. *)
Definition substr8 (s : string) : string :=
  String.substring 8 (String.length s - 8) s.

(** [init], lines 74-102.  [openFile name] stands for
    [new TFile(name, "read")]: [None] when [IsOpen()] is false.  The two
    switches are the process functions the test of line 76 reads; the calls
    that configure the database service are left out. *)
Definition init (cfgPathPhiWeights : string)
    (doprocessLoadWeights doprocessLoadWeightsCF : bool)
    (openFile : string -> option TFile) : result TaskState :=
  if negb doprocessLoadWeights && negb doprocessLoadWeightsCF then Ok initialState
  else if doprocessLoadWeights && doprocessLoadWeightsCF then
    Err (Fatal "Only one of JTracks or CFTracks processing can be enabled at a time.")
  else if contains "ccdb" cfgPathPhiWeights then
    Ok {| ph := None; pf := None; runNumber := 0; timestamp := 0; useCCDB := true |}
  else if String.eqb (String.substring 0 8 cfgPathPhiWeights) "local://" then
    match openFile (substr8 cfgPathPhiWeights) with
    | None => Err (Fatal "NUA correction weights file not found: %s")
    | Some f =>
      Ok {| ph := None; pf := Some f; runNumber := 0; timestamp := 0;
            useCCDB := false |}
    end
  else Ok initialState.

(** ** Example inputs *)

Module Examples.

(** A task that opened a local file holding no histogram at all. *)
Definition localEmpty : TaskState :=
  {| ph := None; pf := Some {| Get := fun _ => None |};
     runNumber := 0; timestamp := 0; useCCDB := false |}.

Definition cfg : Config :=
  {| cfgForRunNumber := false;
     cfgCCDBPath := "Users/m/mavirta/corrections/NUA/LHC23zzh" |}.

Definition ccdbEmpty : CCDB :=
  {| getForRun := fun _ _ => None; getForTimeStamp := fun _ _ => None |}.

Definition collision : Collision :=
  {| coll_runNumber := 544122; multiplicity := 100; posZ := 1 |}.

Definition tracks : list Track :=
  [{| phi := 0; eta := 0.5 |}; {| phi := 1; eta := -0.5 |}].

(** A file system that holds the one file [weights.root], without any
    histogram in it. *)
Definition openFile (name : string) : option TFile :=
  if String.eqb name "weights.root" then Some {| Get := fun _ => None |} else None.

End Examples.

End JflucWeightsLoader.

(** * The Q-vector table producer: [qVectorsTable.cxx] *)

Module QVectorsTable.

(** ** Data *)

(** Sub-system positions inside the Q-vector arrays (the anonymous [enum]). *)
Definition kFT0C : nat := 0.
Definition kFT0A : nat := 1.
Definition kFT0M : nat := 2.
Definition kFV0A : nat := 3.
Definition kBPos : nat := 4.
Definition kBNeg : nat := 5.

(** One row of [aod::FT0s]: channel numbers and amplitudes, side A and C. *)
Record FT0 : Type := {
  channelA : list Z;
  amplitudeA : list R;
  channelC : list Z;
  amplitudeC : list R
}.

(** One row of [aod::FV0As]. *)
Record FV0A : Type := {
  channel : list Z;
  amplitude : list R
}.

(** A bunch crossing with its time stamp. *)
Record BC : Type := {
  bc_runNumber : Z;
  timestamp : Z
}.

(** One row of [MyCollisions]; [foundFT0 = None] is [!has_foundFT0()]. *)
Record Collision : Type := {
  bc : BC;
  foundFT0 : option FT0;
  foundFV0 : option FV0A;
  centFT0M : R;
  centFT0A : R;
  centFT0C : R;
  centFV0A : R
}.

(** One row of [MyTracks]. *)
Record Track : Type := {
  pt : R;
  eta : R;
  phi : R;
  globalIndex : Z;
  passedITSNCls : bool;
  passedITSChi2NDF : bool;
  passedITSHits : bool;
  passedTPCCrossedRowsOverNCls : bool;
  passedTPCChi2NDF : bool;
  passedDCAxy : bool;
  passedDCAz : bool
}.

(** The ROOT histogram of calibration constants, by what the task reads. *)
Record TH3F : Type := { GetBinContent : Z -> Z -> Z -> R }.

Record AlignParam : Type := { getX : R; getY : R }.

#[global] Instance AlignParam_inhabited : Inhabited AlignParam :=
  populate {| getX := 0; getY := 0 |}.

(** The conditions database with [setFatalWhenNull(false)]: a lookup that
    finds nothing yields the null pointer, [None]. *)
Record CCDB : Type := {
  getAlign : string -> Z -> option (list AlignParam);
  getTH3F : string -> Z -> option TH3F;
  getGain : string -> Z -> option (list R)
}.

(** Configurables and the detector switches filled by [init]. *)
Record Config : Type := {
  cfgCentEsti : Z;
  cfgMinPtOnTPC : R;
  cfgMaxPtOnTPC : R;
  cfgnMods : list Z;
  cfgGainEqPath : string;
  cfgQvecCalibPath : string;
  useDetector : gmap string bool
}.

(** [useDetector["name"]] read through [operator[]]. *)
Definition use (cfg : Config) (name : string) : bool :=
  default false (useDetector cfg !! name).

(** Offsets held by the [EventPlaneHelper] member. *)
Record EventPlaneHelper : Type := {
  offsetFT0A : R * R;
  offsetFT0C : R * R;
  offsetFV0left : R * R;
  offsetFV0right : R * R
}.

(** The members of the task that [initCCDB] and [process] write. *)
Record TaskState : Type := {
  runNumber : Z;
  FT0RelGainConst : list R;
  FV0RelGainConst : list R;
  objQvec : list (option TH3F);
  helperEP : EventPlaneHelper
}.

Definition initialState : TaskState := {|
  runNumber := -1;
  FT0RelGainConst := [];
  FV0RelGainConst := [];
  objQvec := [];
  helperEP := {| offsetFT0A := (0, 0); offsetFT0C := (0, 0);
                 offsetFV0left := (0, 0); offsetFV0right := (0, 0) |}
|}.

(** Positions [0 .. size-1] of a channel array paired with the amplitude
    read at the same position: the body of
    [for (iCh = 0; iCh < channel.size(); iCh++)]. *)
Definition signals (chs : list Z) (ampls : list R) : list (Z * R) :=
  imap (fun i ch => (ch, ampls !!! i)) chs.

(** The member initialiser of [useDetector]: no sub-system is in use. *)
Definition useDetector0 : gmap string bool :=
  list_to_map [("QvectorBNegs", false); ("QvectorBPoss", false);
               ("QvectorFV0As", false); ("QvectorFT0Ms", false);
               ("QvectorFT0As", false); ("QvectorFT0Cs", false)].

(** [init], lines 137-149, over the bindings of all device inputs: a
    sub-system is in use when an input binds its table or its [_vec] table. *)
Definition init (bindings : list string) : gmap string bool :=
  foldl (fun m binding =>
           map_imap (fun det v =>
             Some (if decide (binding = det \/ binding = det +:+ "_vec")
                   then true else v)) m)
        useDetector0 bindings.

(** The keys of [useDetector]. *)
Definition subsystemNames : list string :=
  ["QvectorBNegs"; "QvectorBPoss"; "QvectorFV0As"; "QvectorFT0Ms";
   "QvectorFT0As"; "QvectorFT0Cs"].

(** A configuration with another list of harmonics. *)
Definition withMods (cfg : Config) (mods : list Z) : Config :=
  {| cfgCentEsti := cfgCentEsti cfg;
     cfgMinPtOnTPC := cfgMinPtOnTPC cfg;
     cfgMaxPtOnTPC := cfgMaxPtOnTPC cfg;
     cfgnMods := mods;
     cfgGainEqPath := cfgGainEqPath cfg;
     cfgQvecCalibPath := cfgQvecCalibPath cfg;
     useDetector := useDetector cfg |}.

(** ** Example inputs *)

Module Examples.

(** The configurables at their defaults, for a workflow whose inputs bind
    the tables [bindings]. *)
Definition cfgFor (bindings : list string) : Config :=
  {| cfgCentEsti := 2;
     cfgMinPtOnTPC := 0.15;
     cfgMaxPtOnTPC := 5;
     cfgnMods := [2; 3]%Z;
     cfgGainEqPath := "Users/j/junlee/Qvector/GainEq";
     cfgQvecCalibPath := "Analysis/EventPlane/QVecCorrections";
     useDetector := init bindings |}.

Definition cfgAll : Config :=
  cfgFor ["QvectorFT0Cs"; "QvectorFT0As"; "QvectorFT0Ms"; "QvectorFV0As";
          "QvectorBPoss"; "QvectorBNegs"].
Definition cfgFT0A : Config := cfgFor ["QvectorFT0As"].
Definition cfgFT0C : Config := cfgFor ["QvectorFT0Cs_vec"].
Definition cfgFT0CM : Config := cfgFor ["QvectorFT0Cs"; "QvectorFT0Ms"].
Definition cfgBNeg : Config := cfgFor ["QvectorBNegs"].

(** A geometry with channel 0 at azimuth 0 and every other channel at pi. *)
Definition GetPhi (_ : EventPlaneHelper) (_ ch : Z) : R :=
  if (ch =? 0)%Z then 0 else PI.

(** A twist that mixes the two components. *)
Definition DoTwist (q : R * R) (a b : R) : R * R :=
  ((q.1 - b * q.2) / (1 - a * b), (q.2 - a * q.1) / (1 - a * b)).

(** A histogram with the same constant everywhere. *)
Definition hist (c : R) : TH3F := {| GetBinContent := fun _ _ _ => c |}.

(** A loaded cache for run 1: gains at 1, a histogram for each of the two
    harmonics. *)
Definition cache : TaskState :=
  {| runNumber := 1;
     FT0RelGainConst := replicate 208 1;
     FV0RelGainConst := replicate 48 1;
     objQvec := [Some (hist 2); Some (hist 2)];
     helperEP := helperEP initialState |}.

(** A collision of run 1 with centrality [c]: an FT0 row without channels
    and an FV0 row with the amplitudes [ampl] on channels 0 and 1. *)
Definition collision (c : R) (ampl : list R) : Collision :=
  {| bc := {| bc_runNumber := 1; timestamp := 0 |};
     foundFT0 := Some {| channelA := []; amplitudeA := [];
                         channelC := []; amplitudeC := [] |};
     foundFV0 := Some {| channel := [0; 1]%Z; amplitude := ampl |};
     centFT0M := c; centFT0A := c; centFT0C := c; centFV0A := c |}.

(** A collision whose FT0 row has one A-side and one C-side channel. *)
Definition collisionFT0 : Collision :=
  {| bc := {| bc_runNumber := 1; timestamp := 0 |};
     foundFT0 := Some {| channelA := [0%Z]; amplitudeA := [5];
                         channelC := [1%Z]; amplitudeC := [7] |};
     foundFV0 := None;
     centFT0M := 10; centFT0A := 10; centFT0C := 10; centFV0A := 10 |}.

(** A track that passes every cut, at pseudorapidity [e]. *)
Definition track (e : R) : Track :=
  {| pt := 1; eta := e; phi := 0; globalIndex := 7;
     passedITSNCls := true; passedITSChi2NDF := true; passedITSHits := true;
     passedTPCCrossedRowsOverNCls := true; passedTPCChi2NDF := true;
     passedDCAxy := true; passedDCAz := true |}.

(** A conditions database with the alignment objects and nothing else. *)
Definition ccdbBare : CCDB :=
  {| getAlign := fun _ _ => Some [{| getX := 0; getY := 0 |};
                                  {| getX := 0; getY := 0 |}];
     getTH3F := fun _ _ => None;
     getGain := fun _ _ => None |}.

(** A conditions database with the alignment objects and the gain vector
    [2; 4] stored for both families. *)
Definition ccdbGain : CCDB :=
  {| getAlign := fun _ _ => Some [{| getX := 0; getY := 0 |};
                                  {| getX := 0; getY := 0 |}];
     getTH3F := fun _ _ => None;
     getGain := fun _ _ => Some [2; 4] |}.

(** What a reload from [ccdbBare] leaves for run 1 with two harmonics
    configured: gains at 1 and two null histograms. *)
Definition cacheBare : TaskState :=
  {| runNumber := 1;
     FT0RelGainConst := replicate 208 1;
     FV0RelGainConst := replicate 48 1;
     objQvec := [None; None];
     helperEP := helperEP initialState |}.

(** A conditions database with the alignment objects, the histogram
    [hist 3] for harmonic 3 and [hist 2] under every other path. *)
Definition ccdbFull : CCDB :=
  {| getAlign := fun _ _ => Some [{| getX := 0; getY := 0 |};
                                  {| getX := 0; getY := 0 |}];
     getTH3F := fun path _ =>
       if String.eqb path "Analysis/EventPlane/QVecCorrections/v3"
       then Some (hist 3) else Some (hist 2);
     getGain := fun _ _ => None |}.

(** All sub-systems in use, with harmonic 3 configured before harmonic 2,
    and with no harmonic configured. *)
Definition cfg32 : Config := withMods cfgAll [3; 2]%Z.
Definition cfgNoMods : Config := withMods cfgAll [].

End Examples.

Section Task.

(** Geometry is outside this code: [GetPhi helper det ch] is the azimuth of
    channel [ch] of detector family [det] (0: FT0, 1: FV0) under the offsets
    stored in the helper. *)
Variable GetPhi : EventPlaneHelper -> Z -> Z -> R.

(** [EventPlaneHelper::DoTwist(qx, qy, a, b)], as the map from the old
    components to the new ones.  The helper class is declared in
    Common/Core/EventPlaneHelper.h, which is not among the sources, and the
    spec gives no formula for the twist: it is taken as it comes. *)
Variable DoTwist : R * R -> R -> R -> R * R.

Variable cfg : Config.

(** ** The helper's operations *)

(** Modelled from the spec: [EventPlaneHelper::SumQvectors], declared in
    Common/Core/EventPlaneHelper.h, which is not among the sources.  It adds
    [ampl * exp(i * nmode * phi)] to the running Q-vector and [ampl] to the
    running amplitude sum. *)
Definition SumQvectors (helper : EventPlaneHelper) (det iCh : Z) (ampl : R)
    (nmode : Z) (acc : TComplex * R) : TComplex * R :=
  let ph := GetPhi helper det iCh in
  (mkComplex (Re acc.1 + ampl * cos (ph * IZR nmode))
             (Im acc.1 + ampl * sin (ph * IZR nmode)),
   acc.2 + ampl).

(** Modelled from the spec: [EventPlaneHelper::DoRecenter], not among the
    sources: [Q' = Q - (mean_x, mean_y)]. *)
Definition DoRecenter (q : R * R) (x0 y0 : R) : R * R :=
  (q.1 - x0, q.2 - y0).

(** Modelled from the spec: [EventPlaneHelper::DoRescale], not among the
    sources: each component divided by its own width coefficient. *)
Definition DoRescale (q : R * R) (a b : R) : R * R :=
  (q.1 / a, q.2 / b).

(** ** [SelTrack] *)

Definition SelTrack (track : Track) : bool :=
  if decide (pt track < cfgMinPtOnTPC cfg) then false
  else if decide (pt track > cfgMaxPtOnTPC cfg) then false
  else if negb (passedITSNCls track) then false
  else if negb (passedITSChi2NDF track) then false
  else if negb (passedITSHits track) then false
  else if negb (passedTPCCrossedRowsOverNCls track) then false
  else if negb (passedTPCChi2NDF track) then false
  else if negb (passedDCAxy track) then false
  else if negb (passedDCAz track) then false
  else true.

(** ** [CalQvec], block by block *)

Definition C0 : TComplex := mkComplex 0 0.

(** [helperEP.SumQvectors(det, chId, ampl / gain[chId], nmode, Qvec, sum, ...)]
    for the signal [s = (chId, ampl)]. *)
Definition accumulate (helper : EventPlaneHelper) (det : Z) (gain : list R)
    (nmode : Z) (acc : TComplex * R) (s : Z * R) : TComplex * R :=
  SumQvectors helper det s.1 (s.2 / vec_at gain s.1) nmode acc.

(** One pass of a channel loop of the FT0 block: the same call twice, into
    the side's own accumulator and into the FT0M accumulator. *)
Definition ft0Step (st : TaskState) (nmode : Z)
    (acc : (TComplex * R) * (TComplex * R)) (s : Z * R)
    : (TComplex * R) * (TComplex * R) :=
  (accumulate (helperEP st) 0 (FT0RelGainConst st) nmode acc.1 s,
   accumulate (helperEP st) 0 (FT0RelGainConst st) nmode acc.2 s).

Definition pairOf (q : TComplex) : R * R := (Re q, Im q).

(** Channel identifiers of the two sides: A as stored, C shifted by 96. *)
Definition signalsA (ft0 : FT0) : list (Z * R) :=
  signals (channelA ft0) (amplitudeA ft0).
Definition signalsC (ft0 : FT0) : list (Z * R) :=
  signals ((fun c => (c + 96)%Z) <$> channelC ft0) (amplitudeC ft0).

(** The normalisation that closes the channel loops of FT0C and FV0A (lines
    319-326 and 363-370):
    [if (sum > 1e-8) { Qvec /= sum; q = {Re, Im}; } else { q = {999., 999.}; }]. *)
Definition normalise (acc : TComplex * R) : R * R :=
  if decide (acc.2 > 1e-8) then pairOf (TComplex_div acc.1 acc.2) else (999, 999).

(** What the FT0 block leaves in the locals; [QvecFT0M] is the FT0M
    accumulator as the channel loops leave it. *)
Record FT0Locals : Type := {
  qVectFT0A : R * R;
  qVectFT0C : R * R;
  qVectFT0M : R * R;
  sumAmplFT0A : R;
  sumAmplFT0C : R;
  sumAmplFT0M : R;
  QvecFT0M : TComplex
}.

(** Lines 282-347. *)
Definition calFT0 (st : TaskState) (nmode : Z) (coll : Collision) : FT0Locals :=
  match foundFT0 coll with
  | Some ft0 =>
    if use cfg "QvectorFT0As" || use cfg "QvectorFT0Cs" || use cfg "QvectorFT0Ms" then
      (* side A: QvecDet starts at 0; qVectFT0A starts at {0, 0} *)
      let '(detA, m1, qA) :=
        if use cfg "QvectorFT0As" then
          let acc := foldl (ft0Step st nmode) ((C0, 0), (C0, 0)) (signalsA ft0) in
          (acc.1, acc.2,
           if decide (acc.1.2 > 1e-8) then pairOf (TComplex_div acc.1.1 acc.1.2)
           else (0, 0))
        else ((C0, 0), (C0, 0), (999, 999)) in
      (* side C: QvecDet is reset; sumAmplFT0C starts at 0.  When the side
         is not in use QvecDet keeps its value, which is not read again
         before the reset of line 349. *)
      let '(detC, m2, qC) :=
        if use cfg "QvectorFT0Cs" then
          let acc := foldl (ft0Step st nmode) ((C0, 0), m1) (signalsC ft0) in
          (acc.1, acc.2, normalise acc.1)
        else ((C0, 0), m1, (-999, -999)) in
      let qM :=
        if bool_decide (m2.2 > 1e-8) && use cfg "QvectorFT0Ms"
        then pairOf (TComplex_div m2.1 m2.2)
        else (999, 999) in
      {| qVectFT0A := qA; qVectFT0C := qC; qVectFT0M := qM;
         sumAmplFT0A := detA.2; sumAmplFT0C := detC.2; sumAmplFT0M := m2.2;
         QvecFT0M := m2.1 |}
    else
      {| qVectFT0A := (-999, -999); qVectFT0C := (-999, -999);
         qVectFT0M := (-999, -999);
         sumAmplFT0A := 0; sumAmplFT0C := 0; sumAmplFT0M := 0; QvecFT0M := C0 |}
  | None =>
      {| qVectFT0A := (-999, -999); qVectFT0C := (-999, -999);
         qVectFT0M := (-999, -999);
         sumAmplFT0A := 0; sumAmplFT0C := 0; sumAmplFT0M := 0; QvecFT0M := C0 |}
  end.

(** One pass of the FV0 channel loop. *)
Definition fv0Step (st : TaskState) (nmode : Z) (acc : TComplex * R)
    (s : Z * R) : TComplex * R :=
  accumulate (helperEP st) 1 (FV0RelGainConst st) nmode acc s.

(** Lines 349-374: the Q-vector of FV0A and its amplitude sum. *)
Definition calFV0 (st : TaskState) (nmode : Z) (coll : Collision) : (R * R) * R :=
  match foundFV0 coll with
  | Some fv0 =>
    if use cfg "QvectorFV0As" then
      let acc := foldl (fv0Step st nmode) (C0, 0)
                       (signals (channel fv0) (amplitude fv0)) in
      (normalise acc, acc.2)
    else ((-999, -999), 0)
  | None => ((-999, -999), 0)
  end.

(** The locals written by the track loop. *)
Record TrackLocals : Type := {
  qVectBPos : R * R;
  qVectBNeg : R * R;
  TrkBPosLabel : list Z;
  TrkBNegLabel : list Z;
  nTrkBPos : Z;
  nTrkBNeg : Z
}.

(** The body of [for (auto& trk : track)], lines 379-398. *)
Definition trackStep (nmode : Z) (s : TrackLocals) (trk : Track) : TrackLocals :=
  if negb (SelTrack trk) then s
  else if bool_decide (Rabs (eta trk) < 0.1) || bool_decide (Rabs (eta trk) > 0.8) then s
  else if bool_decide (eta trk > 0) && use cfg "QvectorBPoss" then
    {| qVectBPos := ((qVectBPos s).1 + pt trk * cos (phi trk * IZR nmode),
                     (qVectBPos s).2 + pt trk * sin (phi trk * IZR nmode));
       qVectBNeg := qVectBNeg s;
       TrkBPosLabel := TrkBPosLabel s ++ [globalIndex trk];
       TrkBNegLabel := TrkBNegLabel s;
       nTrkBPos := (nTrkBPos s + 1)%Z;
       nTrkBNeg := nTrkBNeg s |}
  else if bool_decide (eta trk < 0) && use cfg "QvectorBNegs" then
    {| qVectBPos := qVectBPos s;
       qVectBNeg := ((qVectBNeg s).1 + pt trk * cos (phi trk * IZR nmode),
                     (qVectBNeg s).2 + pt trk * sin (phi trk * IZR nmode));
       TrkBPosLabel := TrkBPosLabel s;
       TrkBNegLabel := TrkBNegLabel s ++ [globalIndex trk];
       nTrkBPos := nTrkBPos s;
       nTrkBNeg := (nTrkBNeg s + 1)%Z |}
  else s.

(** The two track sub-events. *)
Inductive SubEvent : Type := BPos | BNeg.

#[global] Instance SubEvent_eq_dec : EqDecision SubEvent.
Proof. solve_decision. Defined.

(** The branch [trackStep] takes for a track: the sub-event the track is
    added to, or none when it is skipped. *)
Definition subEventOf (trk : Track) : option SubEvent :=
  if negb (SelTrack trk) then None
  else if bool_decide (Rabs (eta trk) < 0.1) || bool_decide (Rabs (eta trk) > 0.8) then None
  else if bool_decide (eta trk > 0) && use cfg "QvectorBPoss" then Some BPos
  else if bool_decide (eta trk < 0) && use cfg "QvectorBNegs" then Some BNeg
  else None.

(** Lines 376-414: the loop, then the division by the member count or the
    sentinel. *)
Definition calTracks (nmode : Z) (track : list Track)
    (TrkBPosLabel0 TrkBNegLabel0 : list Z) : TrackLocals :=
  let s := foldl (trackStep nmode)
             {| qVectBPos := (0, 0); qVectBNeg := (0, 0);
                TrkBPosLabel := TrkBPosLabel0; TrkBNegLabel := TrkBNegLabel0;
                nTrkBPos := 0; nTrkBNeg := 0 |} track in
  {| qVectBPos := if decide (nTrkBPos s > 0)%Z
                  then ((qVectBPos s).1 / IZR (nTrkBPos s),
                        (qVectBPos s).2 / IZR (nTrkBPos s))
                  else (999, 999);
     qVectBNeg := if decide (nTrkBNeg s > 0)%Z
                  then ((qVectBNeg s).1 / IZR (nTrkBNeg s),
                        (qVectBNeg s).2 / IZR (nTrkBNeg s))
                  else (999, 999);
     TrkBPosLabel := TrkBPosLabel s;
     TrkBNegLabel := TrkBNegLabel s;
     nTrkBPos := nTrkBPos s;
     nTrkBNeg := nTrkBNeg s |}.

(** The vectors [CalQvec] receives by reference. *)
Record QvecArrays : Type := {
  QvecRe : list R;
  QvecIm : list R;
  QvecAmp : list R;
  BPosLabels : list Z;
  BNegLabels : list Z
}.

(** [for (i < 4) { v.push_back(x); }]. *)
Definition push4 (x : R) : list R := replicate 4 x.

(** [CalQvec]: the three blocks, then the pushes of lines 416-446. *)
Definition CalQvec (st : TaskState) (nmode : Z) (coll : Collision)
    (track : list Track) (a : QvecArrays) : QvecArrays :=
  let f := calFT0 st nmode coll in
  let v := calFV0 st nmode coll in
  let t := calTracks nmode track (BPosLabels a) (BNegLabels a) in
  {| QvecRe := QvecRe a
       ++ push4 (qVectFT0C f).1 ++ push4 (qVectFT0A f).1 ++ push4 (qVectFT0M f).1
       ++ push4 v.1.1 ++ push4 (qVectBPos t).1 ++ push4 (qVectBNeg t).1;
     QvecIm := QvecIm a
       ++ push4 (qVectFT0C f).2 ++ push4 (qVectFT0A f).2 ++ push4 (qVectFT0M f).2
       ++ push4 v.1.2 ++ push4 (qVectBPos t).2 ++ push4 (qVectBNeg t).2;
     QvecAmp := QvecAmp a ++ [sumAmplFT0C f; sumAmplFT0A f; sumAmplFT0M f; v.2;
                              IZR (nTrkBPos t); IZR (nTrkBNeg t)];
     BPosLabels := TrkBPosLabel t;
     BNegLabels := TrkBNegLabel t |}.

Definition noArrays : QvecArrays :=
  {| QvecRe := []; QvecIm := []; QvecAmp := []; BPosLabels := []; BNegLabels := [] |}.

(** The sums in the words of the spec, over signals [(channel, amplitude)]
    with the amplitude already divided by the gain:
    [Q = sum of amplitude_i * exp(i * n * phi_i)] and [W = sum of amplitude_i]. *)
Definition corrected (gain : list R) (s : Z * R) : Z * R :=
  (s.1, s.2 / vec_at gain s.1).

Fixpoint Qsum (helper : EventPlaneHelper) (det nmode : Z) (l : list (Z * R))
    : TComplex :=
  match l with
  | [] => C0
  | s :: l' =>
    mkComplex (s.2 * cos (GetPhi helper det s.1 * IZR nmode)
               + Re (Qsum helper det nmode l'))
              (s.2 * sin (GetPhi helper det s.1 * IZR nmode)
               + Im (Qsum helper det nmode l'))
  end.

Fixpoint Wsum (l : list (Z * R)) : R :=
  match l with
  | [] => 0
  | s :: l' => s.2 + Wsum l'
  end.

(** The magnitude of a Q-vector. *)
Definition magnitude (q : R * R) : R := sqrt (q.1 * q.1 + q.2 * q.2).

(** What the spec asks of a channel-based accumulator that was fed the
    signals [c] and left the Q-vector [q] and the amplitude sum [w]: [w] is
    [W]; above the threshold [q] is [Q / W], of magnitude at most 1 when no
    amplitude is negative; at or below it [q] is the sentinel. *)
Definition channelOutput (helper : EventPlaneHelper) (det nmode : Z)
    (c : list (Z * R)) (q : R * R) (w : R) : Prop :=
  let Q := Qsum helper det nmode c in
  let W := Wsum c in
  w = W /\
  (W > 1e-8 ->
     q = (Re Q / W, Im Q / W) /\
     (Forall (fun s : Z * R => 0 <= s.2) c -> magnitude q <= 1)) /\
  (W <= 1e-8 -> q = (999, 999)).

(** The signals that reach the FT0M accumulator: those of a side only when
    the side's own sub-system is in use. *)
Definition signalsM (ft0 : FT0) : list (Z * R) :=
  (if use cfg "QvectorFT0As" then signalsA ft0 else [])
  ++ (if use cfg "QvectorFT0Cs" then signalsC ft0 else []).

(** ** [initCCDB], lines 175-238 *)

Definition setOffsets (ft0 fv0 : list AlignParam) : EventPlaneHelper :=
  {| offsetFT0A := (getX (ft0 !!! 0%nat), getY (ft0 !!! 0%nat));
     offsetFT0C := (getX (ft0 !!! 1%nat), getY (ft0 !!! 1%nat));
     offsetFV0left := (getX (fv0 !!! 0%nat), getY (fv0 !!! 0%nat));
     offsetFV0right := (getX (fv0 !!! 1%nat), getY (fv0 !!! 1%nat)) |}.

(** The calibration histogram kept for harmonic [ind]: its own, or the one
    of harmonic 2 when its own is not found (lines 205-215). *)
Definition loadQvec (ccdb : CCDB) (ts : Z) (ind : Z) : option TH3F :=
  match getTH3F ccdb (cfgQvecCalibPath cfg +:+ "/v" +:+ pretty ind) ts with
  | Some h => Some h
  | None => getTH3F ccdb (cfgQvecCalibPath cfg +:+ "/v2") ts
  end.

(** The gain constants kept for a detector family of [n] channels: the
    stored vector, or [n] times [1.] (lines 217-237). *)
Definition loadGain (ccdb : CCDB) (ts : Z) (family : string) (n : nat) : list R :=
  match getGain ccdb (cfgGainEqPath cfg +:+ family) ts with
  | None => replicate n 1
  | Some v => v
  end.

Definition initCCDB (ccdb : CCDB) (b : BC) (st : TaskState) : result TaskState :=
  let ts := timestamp b in
  match getAlign ccdb "FT0/Calib/Align" ts with
  | None => Err (Fatal "Could not get the alignment parameters for FT0.")
  | Some offsetFT0 =>
    match getAlign ccdb "FV0/Calib/Align" ts with
    | None => Err (Fatal "Could not get the alignment parameters for FV0.")
    | Some offsetFV0 =>
      Ok {| runNumber := runNumber st;
            FT0RelGainConst := loadGain ccdb ts "/FT0" 208;
            FV0RelGainConst := loadGain ccdb ts "/FV0" 48;
            objQvec := loadQvec ccdb ts <$> cfgnMods cfg;
            helperEP := setOffsets offsetFT0 offsetFV0 |}
    end
  end.

(** ** [process], lines 449-593 *)

(** Lines 491-496: the cache is reloaded when the run number changes. *)
Definition refresh (ccdb : CCDB) (st : TaskState) (coll : Collision)
    : result TaskState :=
  let currentRun := bc_runNumber (bc coll) in
  if decide (runNumber st = currentRun) then Ok st
  else
    let* st' := initCCDB ccdb (bc coll) st in
    Ok {| runNumber := currentRun;
          FT0RelGainConst := FT0RelGainConst st';
          FV0RelGainConst := FV0RelGainConst st';
          objQvec := objQvec st';
          helperEP := helperEP st' |}.

(** Lines 498-501: the centrality of the configured estimator. *)
Definition centEstim (coll : Collision) : R :=
  let centAllEstim := [centFT0M coll; centFT0A coll; centFT0C coll; centFV0A coll] in
  vec_at centAllEstim (cfgCentEsti cfg).

(** Lines 502-506: the centrality that is reported and the flag. *)
Definition centrality (coll : Collision) : R * bool :=
  let cent := centEstim coll in
  if bool_decide (cent < 0) || bool_decide (cent > 80) then (110, false)
  else (cent, true).

(** A helper call on [(re[idx], im[idx])], both passed by reference. *)
Definition onRefs (f : R * R -> R * R) (idx : nat) (v : list R * list R)
    : list R * list R :=
  let q := f (v.1 !!! idx, v.2 !!! idx) in
  (<[idx := q.1]> v.1, <[idx := q.2]> v.2).

(** [objQvec.at(id)->...]: [at] throws past the end, and the call goes
    through the stored pointer. *)
Definition tableAt (tables : list (option TH3F)) (id : nat) : result TH3F :=
  match tables !! id with
  | None => Err OutOfRange
  | Some None => Err NullDeref
  | Some (Some h) => Ok h
  end.

(** [objQvec.at(id)->GetBinContent(static_cast<int>(cent) + 1, k, i + 1)]:
    the constant in column [k] for sub-system [i] at centrality [cent]. *)
Definition constant (h : TH3F) (cent : R) (i : nat) (k : Z) : R :=
  GetBinContent h (static_cast_int cent + 1) k (Z.of_nat i + 1).

(** The body of [for (i < 6)], lines 513-526 and 548-561, on the group of
    sub-system [i] that starts at [base + i * 4]. *)
Definition correctStep (h : TH3F) (cent : R) (base : nat)
    (v : list R * list R) (i : nat) : list R * list R :=
  let c := constant h cent i in
  let v := onRefs (fun q => DoRecenter q (c 1%Z) (c 2%Z)) (base + i * 4 + 1) v in
  let v := onRefs (fun q => DoRecenter q (c 1%Z) (c 2%Z)) (base + i * 4 + 2) v in
  let v := onRefs (fun q => DoTwist q (c 3%Z) (c 4%Z)) (base + i * 4 + 2) v in
  let v := onRefs (fun q => DoRecenter q (c 1%Z) (c 2%Z)) (base + i * 4 + 3) v in
  let v := onRefs (fun q => DoTwist q (c 3%Z) (c 4%Z)) (base + i * 4 + 3) v in
  onRefs (fun q => DoRescale q (c 5%Z) (c 6%Z)) (base + i * 4 + 3) v.

(** [if (cent < 80) { for (i < 6) ... }] with the histogram [objQvec.at(id)].
    The vector of histograms does not change during the loop, so the
    histogram is fetched once. *)
Definition correct (tables : list (option TH3F)) (id : nat) (cent : R)
    (base : nat) (v : list R * list R) : result (list R * list R) :=
  if decide (cent < 80) then
    let* h := tableAt tables id in
    Ok (foldl (correctStep h cent base) v (seq 0 6))
  else Ok v.

(** The three stages a raw Q-vector of sub-system [i] can go through:
    recentering, then twist, then rescaling, each with its two constants. *)
Definition recentered (h : TH3F) (cent : R) (i : nat) (q : R * R) : R * R :=
  DoRecenter q (constant h cent i 1) (constant h cent i 2).
Definition twisted (h : TH3F) (cent : R) (i : nat) (q : R * R) : R * R :=
  DoTwist (recentered h cent i q) (constant h cent i 3) (constant h cent i 4).
Definition rescaled (h : TH3F) (cent : R) (i : nat) (q : R * R) : R * R :=
  DoRescale (twisted h cent i q) (constant h cent i 5) (constant h cent i 6).

(** Entry [k] of the group of four of sub-system [i] after the three passes:
    left as it was, recentered, twisted, rescaled. *)
Definition cascade (h : TH3F) (cent : R) (i k : nat) (q : R * R) : R * R :=
  match k with
  | 0%nat => q
  | 1%nat => recentered h cent i q
  | 2%nat => twisted h cent i q
  | _ => rescaled h cent i q
  end.

(** What [correct] leaves in entry [k] of the group of sub-system [i] when
    it goes through with the histogram at position [id]. *)
Definition calibrated (tables : list (option TH3F)) (id : nat) (cent : R)
    (i k : nat) (q : R * R) : R * R :=
  if decide (cent < 80) then
    match tables !! id with
    | Some (Some h) => cascade h cent i k q
    | _ => q
    end
  else q.

(** The six Q-vectors in the order of the pushes, lines 416-439. *)
Definition subsystems (f : FT0Locals) (v : (R * R) * R) (t : TrackLocals)
    : list (R * R) :=
  [qVectFT0C f; qVectFT0A f; qVectFT0M f; v.1; qVectBPos t; qVectBNeg t].

(** The six raw Q-vectors of an event for harmonic [nmode], in the order of
    the arrays. *)
Definition rawQ (st : TaskState) (nmode : Z) (coll : Collision)
    (tracks : list Track) : list (R * R) :=
  subsystems (calFT0 st nmode coll) (calFV0 st nmode coll)
             (calTracks nmode tracks [] []).

(** The real and the imaginary array side by side. *)
Definition arraysOf (a : QvecArrays) : list R * list R := (QvecRe a, QvecIm a).

(** The locals of [process] with suffix [_vec]. *)
Record VecLocals : Type := {
  arrays_vec : QvecArrays;
  qvecFT0C_vec : list (R * R);
  qvecFT0A_vec : list (R * R);
  qvecFT0M_vec : list (R * R);
  qvecFV0A_vec : list (R * R);
  qvecBPos_vec : list (R * R);
  qvecBNeg_vec : list (R * R)
}.

Definition noVecLocals : VecLocals :=
  {| arrays_vec := noArrays; qvecFT0C_vec := []; qvecFT0A_vec := [];
     qvecFT0M_vec := []; qvecFV0A_vec := []; qvecBPos_vec := [];
     qvecBNeg_vec := [] |}.

(** [(re[idx], im[idx])]. *)
Definition pick (v : list R * list R) (idx : nat) : R * R :=
  (v.1 !!! idx, v.2 !!! idx).

(** The body of [for (id < cfgnMods->size())], lines 509-541. *)
Definition harmonicStep (st : TaskState) (coll : Collision) (tracks : list Track)
    (cent : R) (acc : VecLocals) (id : nat) (ind : Z) : result VecLocals :=
  let a := CalQvec st ind coll tracks (arrays_vec acc) in
  let base := ((kBNeg + 1) * 4 * id)%nat in
  let* v := correct (objQvec st) id cent base (QvecRe a, QvecIm a) in
  Ok {| arrays_vec := {| QvecRe := v.1; QvecIm := v.2; QvecAmp := QvecAmp a;
                         BPosLabels := BPosLabels a; BNegLabels := BNegLabels a |};
        qvecFT0C_vec := qvecFT0C_vec acc ++ [pick v (base + kFT0C * 4 + 3)];
        qvecFT0A_vec := qvecFT0A_vec acc ++ [pick v (base + kFT0A * 4 + 3)];
        qvecFT0M_vec := qvecFT0M_vec acc ++ [pick v (base + kFT0M * 4 + 3)];
        qvecFV0A_vec := qvecFV0A_vec acc ++ [pick v (base + kFV0A * 4 + 3)];
        qvecBPos_vec := qvecBPos_vec acc ++ [pick v (base + kBPos * 4 + 3)];
        qvecBNeg_vec := qvecBNeg_vec acc ++ [pick v (base + kBNeg * 4 + 3)] |}.

(** The loop over the configured harmonics, from position [id] on. *)
Fixpoint harmonicsFrom (st : TaskState) (coll : Collision) (tracks : list Track)
    (cent : R) (id : nat) (inds : list Z) (acc : VecLocals) : result VecLocals :=
  match inds with
  | [] => Ok acc
  | ind :: rest =>
    let* acc' := harmonicStep st coll tracks cent acc id ind in
    harmonicsFrom st coll tracks cent (S id) rest acc'
  end.

Definition harmonics (st : TaskState) (coll : Collision) (tracks : list Track)
    (cent : R) : result VecLocals :=
  harmonicsFrom st coll tracks cent 0 (cfgnMods cfg) noVecLocals.

(** The rows handed to the output tables, lines 580-592; a sub-system's own
    table gets a row only when the sub-system is in use. *)
Record Output : Type := {
  out_cent : R;
  out_IsCalibrated : bool;
  out_qvecRe : list R;
  out_qvecIm : list R;
  out_qvecAmp : list R;
  qVectorFT0C : option (bool * R * R * R);
  qVectorFT0A : option (bool * R * R * R);
  qVectorFT0M : option (bool * R * R * R);
  qVectorFV0A : option (bool * R * R * R);
  qVectorBPos : option (bool * R * R * R * list Z);
  qVectorBNeg : option (bool * R * R * R * list Z)
}.

(** The row of a channel-based sub-system at position [k]. *)
Definition rowOf (name : string) (k : nat) (IsCalibrated : bool)
    (v : list R * list R) (amp : list R) : option (bool * R * R * R) :=
  if use cfg name
  then Some (IsCalibrated, v.1 !!! (k * 4 + 3)%nat, v.2 !!! (k * 4 + 3)%nat, amp !!! k)
  else None.

(** Lines 565-592: the rows of one event, from the centrality, the flag,
    the corrected arrays [v] and what [CalQvec] left in [a]. *)
Definition emit (cent : R) (IsCalibrated : bool) (v : list R * list R)
    (a : QvecArrays) : Output :=
  {| out_cent := cent;
     out_IsCalibrated := IsCalibrated;
     out_qvecRe := v.1;
     out_qvecIm := v.2;
     out_qvecAmp := QvecAmp a;
     qVectorFT0C := rowOf "QvectorFT0Cs" kFT0C IsCalibrated v (QvecAmp a);
     qVectorFT0A := rowOf "QvectorFT0As" kFT0A IsCalibrated v (QvecAmp a);
     qVectorFT0M := rowOf "QvectorFT0Ms" kFT0M IsCalibrated v (QvecAmp a);
     qVectorFV0A := rowOf "QvectorFV0As" kFV0A IsCalibrated v (QvecAmp a);
     qVectorBPos :=
       option_map (fun r => (r, BPosLabels a))
         (rowOf "QvectorBPoss" kBPos IsCalibrated v (QvecAmp a));
     qVectorBNeg :=
       option_map (fun r => (r, BNegLabels a))
         (rowOf "QvectorBNegs" kBNeg IsCalibrated v (QvecAmp a)) |}.

(** Lines 498-592, on the cache as it stands. *)
Definition processEvent (st : TaskState) (coll : Collision) (tracks : list Track)
    : result Output :=
  let '(cent, IsCalibrated) := centrality coll in
  let* _ := harmonics st coll tracks cent in
  let a := CalQvec st 2 coll tracks noArrays in
  let* v := correct (objQvec st) 0 cent 0 (QvecRe a, QvecIm a) in
  Ok (emit cent IsCalibrated v a).

Definition process (ccdb : CCDB) (st : TaskState) (coll : Collision)
    (tracks : list Track) : result (TaskState * Output) :=
  let* st' := refresh ccdb st coll in
  let* out := processEvent st' coll tracks in
  Ok (st', out).

(** The six vectors of Q-vectors that the loop over harmonics fills, in
    the order of the sub-systems. *)
Definition perSubsystem (vl : VecLocals) : list (list (R * R)) :=
  [qvecFT0C_vec vl; qvecFT0A_vec vl; qvecFT0M_vec vl; qvecFV0A_vec vl;
   qvecBPos_vec vl; qvecBNeg_vec vl].

(** The tracks [trackStep] adds to a sub-event, in traversal order. *)
Definition members (e : SubEvent) (tracks : list Track) : list Track :=
  filter (fun trk => subEventOf trk = Some e) tracks.

(** The sums the track loop builds: [pt * cos(phi * nmode)] and
    [pt * sin(phi * nmode)] over a list of tracks, and the sum of [pt]. *)
Fixpoint trackSum (nmode : Z) (l : list Track) : R * R :=
  match l with
  | [] => (0, 0)
  | trk :: l' =>
    (pt trk * cos (phi trk * IZR nmode) + (trackSum nmode l').1,
     pt trk * sin (phi trk * IZR nmode) + (trackSum nmode l').2)
  end.

Fixpoint ptSum (l : list Track) : R :=
  match l with
  | [] => 0
  | trk :: l' => pt trk + ptSum l'
  end.

(** ** Properties *)

(** *** Reads and writes through references *)

Lemma onRefs_length f idx v :
  length (onRefs f idx v).1 = length v.1 /\ length (onRefs f idx v).2 = length v.2.
Proof. unfold onRefs; simpl; by rewrite !length_insert. Qed.

Lemma pick_onRefs f idx v j :
  (idx < length v.1)%nat -> (idx < length v.2)%nat ->
  pick (onRefs f idx v) j = if decide (j = idx) then f (pick v idx) else pick v j.
Proof.
  intros H1 H2. unfold pick, onRefs; simpl.
  destruct (decide (j = idx)) as [->|Hne].
  - rewrite !list_lookup_total_insert_eq by done. by destruct (f _).
  - by rewrite !list_lookup_total_insert_ne by done.
Qed.

Lemma correctStep_length h cent base v i :
  length (correctStep h cent base v i).1 = length v.1 /\
  length (correctStep h cent base v i).2 = length v.2.
Proof.
  unfold correctStep.
  repeat match goal with
  | |- context [onRefs ?f ?idx ?w] =>
    destruct (onRefs_length f idx w) as [-> ->]
  end.
  done.
Qed.

Lemma correctStep_pick h cent base v i j :
  (base + i * 4 + 3 < length v.1)%nat -> (base + i * 4 + 3 < length v.2)%nat ->
  pick (correctStep h cent base v i) j =
    if decide (j = base + i * 4 + 1)%nat then recentered h cent i (pick v j)
    else if decide (j = base + i * 4 + 2)%nat then twisted h cent i (pick v j)
    else if decide (j = base + i * 4 + 3)%nat then rescaled h cent i (pick v j)
    else pick v j.
Proof.
  intros H1 H2. unfold correctStep, rescaled, twisted, recentered.
  repeat (rewrite pick_onRefs;
          [ | repeat (match goal with
                      | |- context [length (onRefs ?f ?idx ?w).1] =>
                        destruct (onRefs_length f idx w) as [-> _]
                      | |- context [length (onRefs ?f ?idx ?w).2] =>
                        destruct (onRefs_length f idx w) as [_ ->]
                      end); lia ..]).
  repeat case_decide; subst; try lia; done.
Qed.

Lemma correct6_length h cent base v :
  length (foldl (correctStep h cent base) v (seq 0 6)).1 = length v.1 /\
  length (foldl (correctStep h cent base) v (seq 0 6)).2 = length v.2.
Proof.
  generalize (seq 0 6). intros l. revert v.
  induction l as [|i l IH]; intros v; simpl; [done|].
  destruct (IH (correctStep h cent base v i)) as [-> ->].
  apply correctStep_length.
Qed.

(** Outside the 24 positions that start at [base] nothing is written. *)
Lemma correct6_outside h cent base v j :
  (base + 24 <= length v.1)%nat -> (base + 24 <= length v.2)%nat ->
  (j < base \/ base + 24 <= j)%nat ->
  pick (foldl (correctStep h cent base) v (seq 0 6)) j = pick v j.
Proof.
  intros H1 H2 Hj. simpl.
  repeat (rewrite correctStep_pick;
          [ | repeat (match goal with
                      | |- context [length (correctStep ?a ?b ?c ?w ?i).1] =>
                        destruct (correctStep_length a b c w i) as [-> _]
                      | |- context [length (correctStep ?a ?b ?c ?w ?i).2] =>
                        destruct (correctStep_length a b c w i) as [_ ->]
                      end); lia ..];
          repeat case_decide; try lia).
  done.
Qed.

(** Inside, the group of sub-system [i] holds the raw value, the recentered
    one, the twisted one and the rescaled one of its four entries. *)
Lemma correct6_group h cent base v i :
  (base + 24 <= length v.1)%nat -> (base + 24 <= length v.2)%nat ->
  (i < 6)%nat ->
  let w := foldl (correctStep h cent base) v (seq 0 6) in
  pick w (base + i * 4) = pick v (base + i * 4) /\
  pick w (base + i * 4 + 1) = recentered h cent i (pick v (base + i * 4 + 1)) /\
  pick w (base + i * 4 + 2) = twisted h cent i (pick v (base + i * 4 + 2)) /\
  pick w (base + i * 4 + 3) = rescaled h cent i (pick v (base + i * 4 + 3)).
Proof.
  intros H1 H2 Hi. simpl.
  destruct i as [|[|[|[|[|[|i]]]]]]; try lia;
  repeat split;
  repeat (rewrite correctStep_pick;
          [ | repeat (match goal with
                      | |- context [length (correctStep ?a ?b ?c ?w ?i).1] =>
                        destruct (correctStep_length a b c w i) as [-> _]
                      | |- context [length (correctStep ?a ?b ?c ?w ?i).2] =>
                        destruct (correctStep_length a b c w i) as [_ ->]
                      end); lia ..];
          repeat case_decide; try lia);
  done.
Qed.

(** *** Accumulation over channels *)

Lemma accumulate_sums helper det gain nmode l acc :
  foldl (accumulate helper det gain nmode) acc l =
  (mkComplex (Re acc.1 + Re (Qsum helper det nmode (corrected gain <$> l)))
             (Im acc.1 + Im (Qsum helper det nmode (corrected gain <$> l))),
   acc.2 + Wsum (corrected gain <$> l)).
Proof.
  revert acc. induction l as [|s l IH]; intros [[x y] w]; simpl.
  - f_equal; [f_equal|]; lra.
  - rewrite IH. unfold accumulate, SumQvectors, corrected; simpl.
    f_equal; [f_equal|]; apply Rplus_assoc.
Qed.

Lemma accumulate_from_zero helper det gain nmode l :
  foldl (accumulate helper det gain nmode) (C0, 0) l =
  (Qsum helper det nmode (corrected gain <$> l), Wsum (corrected gain <$> l)).
Proof.
  rewrite accumulate_sums. simpl.
  destruct (Qsum helper det nmode (corrected gain <$> l)) as [x y]; simpl.
  f_equal; [f_equal|]; lra.
Qed.

Lemma ft0Step_foldl st nmode a m l :
  foldl (ft0Step st nmode) (a, m) l =
  (foldl (accumulate (helperEP st) 0 (FT0RelGainConst st) nmode) a l,
   foldl (accumulate (helperEP st) 0 (FT0RelGainConst st) nmode) m l).
Proof.
  revert a m. induction l as [|s l IH]; intros a m; simpl; [done|].
  unfold ft0Step at 2; simpl. apply IH.
Qed.

(** A sum of non-negative multiples of unit vectors is no longer than the
    sum of the multiples. *)
Lemma Qsum_bound helper det nmode l :
  Forall (fun s : Z * R => 0 <= s.2) l ->
  0 <= Wsum l /\
  Re (Qsum helper det nmode l) * Re (Qsum helper det nmode l)
  + Im (Qsum helper det nmode l) * Im (Qsum helper det nmode l)
  <= Wsum l * Wsum l.
Proof.
  induction 1 as [|s l Hs _ [IHw IHq]]; simpl; [lra|].
  set (X := Re (Qsum helper det nmode l)) in *.
  set (Y := Im (Qsum helper det nmode l)) in *.
  set (W := Wsum l) in *.
  set (th := GetPhi helper det s.1 * IZR nmode).
  pose proof (sin2_cos2 th) as Hu. unfold Rsqr in Hu.
  set (c := cos th) in *. set (d := sin th) in *.
  assert (Hcs : c * X + d * Y <= W).
  { destruct (Rle_dec (c * X + d * Y) W) as [|Hn]; [done|].
    exfalso. apply Rnot_le_lt in Hn.
    assert ((c * X + d * Y) * (c * X + d * Y) <= W * W).
    { pose proof (Rle_0_sqr (c * Y - d * X)) as Hsq. unfold Rsqr in Hsq. nra. }
    nra. }
  split; [lra|]. nra.
Qed.

Lemma magnitude_le_1 (x y w : R) :
  0 < w -> x * x + y * y <= w * w -> magnitude (x / w, y / w) <= 1.
Proof.
  intros Hw Hxy. unfold magnitude; simpl.
  rewrite <- sqrt_1. apply sqrt_le_1_alt.
  replace (x / w * (x / w) + y / w * (y / w)) with ((x * x + y * y) / (w * w))
    by (field; lra).
  assert (Hww : 0 < w * w) by nra.
  apply (Rmult_le_reg_r (w * w)); [done|].
  unfold Rdiv. rewrite Rmult_assoc, Rinv_l by lra. lra.
Qed.

Lemma normalise_output helper det gain nmode l :
  channelOutput helper det nmode (corrected gain <$> l)
    (normalise (foldl (accumulate helper det gain nmode) (C0, 0) l))
    (foldl (accumulate helper det gain nmode) (C0, 0) l).2.
Proof.
  rewrite accumulate_from_zero. unfold channelOutput, normalise; simpl.
  set (c := corrected gain <$> l).
  split; [done|]. split.
  - intros HW. rewrite decide_True by done. split; [done|].
    intros Hpos. destruct (Qsum_bound helper det nmode c Hpos) as [_ Hq].
    apply magnitude_le_1; [lra | done].
  - intros HW. rewrite decide_False by lra. done.
Qed.

(** *** The FT0 block once it is entered *)

Lemma calFT0_found st nmode coll ft0 :
  foundFT0 coll = Some ft0 ->
  use cfg "QvectorFT0As" || use cfg "QvectorFT0Cs" || use cfg "QvectorFT0Ms" = true ->
  let acc := foldl (accumulate (helperEP st) 0 (FT0RelGainConst st) nmode) (C0, 0) in
  let accA := acc (if use cfg "QvectorFT0As" then signalsA ft0 else []) in
  let accC := acc (if use cfg "QvectorFT0Cs" then signalsC ft0 else []) in
  let accM := acc (signalsM ft0) in
  calFT0 st nmode coll =
    {| qVectFT0A :=
         if use cfg "QvectorFT0As" then
           if decide (accA.2 > 1e-8) then pairOf (TComplex_div accA.1 accA.2)
           else (0, 0)
         else (999, 999);
       qVectFT0C := if use cfg "QvectorFT0Cs" then normalise accC else (-999, -999);
       qVectFT0M :=
         if bool_decide (accM.2 > 1e-8) && use cfg "QvectorFT0Ms"
         then pairOf (TComplex_div accM.1 accM.2) else (999, 999);
       sumAmplFT0A := accA.2; sumAmplFT0C := accC.2; sumAmplFT0M := accM.2;
       QvecFT0M := accM.1 |}.
Proof.
  intros Hft0 Hblock. unfold calFT0, signalsM. rewrite Hft0, Hblock.
  destruct (use cfg "QvectorFT0As"), (use cfg "QvectorFT0Cs"); simpl;
    rewrite ?ft0Step_foldl, ?foldl_app; simpl; done.
Qed.

Lemma calFT0_skipped st nmode coll :
  foundFT0 coll = None \/
  use cfg "QvectorFT0As" || use cfg "QvectorFT0Cs" || use cfg "QvectorFT0Ms" = false ->
  qVectFT0A (calFT0 st nmode coll) = (-999, -999) /\
  qVectFT0C (calFT0 st nmode coll) = (-999, -999) /\
  qVectFT0M (calFT0 st nmode coll) = (-999, -999).
Proof.
  unfold calFT0. intros [-> | H]; [done|].
  destruct (foundFT0 coll); [|done]. by rewrite H.
Qed.

(** C4 (amended): each channel-based accumulator that is in use leaves the
    amplitude sum [W] of the gain-corrected signals it was fed; when
    [W > 1e-8] its Q-vector is [Q / W] with [Q] the sum of
    [amplitude * exp(i n phi)], and the magnitude is at most 1 provided no
    corrected amplitude is negative; when [W <= 1e-8] FV0A, FT0C and FT0M give
    the sentinel (999, 999) and nothing is divided.  For FT0A only the case
    [W > 1e-8] is stated. *)
Theorem C4_channel_accumulators st nmode coll :
  (forall fv0, foundFV0 coll = Some fv0 -> use cfg "QvectorFV0As" = true ->
     channelOutput (helperEP st) 1 nmode
       (corrected (FV0RelGainConst st) <$> signals (channel fv0) (amplitude fv0))
       (calFV0 st nmode coll).1 (calFV0 st nmode coll).2) /\
  (forall ft0, foundFT0 coll = Some ft0 -> use cfg "QvectorFT0Cs" = true ->
     channelOutput (helperEP st) 0 nmode
       (corrected (FT0RelGainConst st) <$> signalsC ft0)
       (qVectFT0C (calFT0 st nmode coll)) (sumAmplFT0C (calFT0 st nmode coll))) /\
  (forall ft0, foundFT0 coll = Some ft0 -> use cfg "QvectorFT0Ms" = true ->
     channelOutput (helperEP st) 0 nmode
       (corrected (FT0RelGainConst st) <$> signalsM ft0)
       (qVectFT0M (calFT0 st nmode coll)) (sumAmplFT0M (calFT0 st nmode coll))) /\
  (forall ft0, foundFT0 coll = Some ft0 -> use cfg "QvectorFT0As" = true ->
     let c := corrected (FT0RelGainConst st) <$> signalsA ft0 in
     let Q := Qsum (helperEP st) 0 nmode c in
     let W := Wsum c in
     sumAmplFT0A (calFT0 st nmode coll) = W /\
     (W > 1e-8 ->
        qVectFT0A (calFT0 st nmode coll) = (Re Q / W, Im Q / W) /\
        (Forall (fun s : Z * R => 0 <= s.2) c ->
         magnitude (qVectFT0A (calFT0 st nmode coll)) <= 1))).
Proof.
  split; [|split; [|split]].
  - intros fv0 Hf Hu. unfold calFV0. rewrite Hf, Hu. simpl.
    apply normalise_output.
  - intros ft0 Hf Hu.
    rewrite (calFT0_found st nmode coll ft0 Hf) by (rewrite Hu; by rewrite !orb_true_r).
    simpl. rewrite Hu. apply normalise_output.
  - intros ft0 Hf Hu.
    rewrite (calFT0_found st nmode coll ft0 Hf) by (rewrite Hu; by rewrite !orb_true_r).
    simpl. rewrite Hu, andb_true_r.
    pose proof (normalise_output (helperEP st) 0 (FT0RelGainConst st) nmode
                  (signalsM ft0)) as Hn.
    unfold normalise in Hn.
    destruct (decide (_ > 1e-8)) as [Hgt|Hle].
    + by rewrite bool_decide_eq_true_2.
    + by rewrite bool_decide_eq_false_2.
  - intros ft0 Hf Hu c Q W.
    rewrite (calFT0_found st nmode coll ft0 Hf) by (by rewrite Hu).
    simpl. rewrite Hu, accumulate_from_zero. simpl. fold c Q W.
    split; [done|]. intros HW. rewrite decide_True by done.
    split; [done|]. intros Hpos.
    destruct (Qsum_bound (helperEP st) 0 nmode c Hpos) as [_ Hq].
    apply magnitude_le_1; [lra | done].
Qed.

(** C9: the FT0M accumulator receives the channels of a side only inside
    that side's own [if (useDetector[...])] block.  Whenever the FT0 block is
    entered, the FT0M Q-vector sum and amplitude sum are the accumulation over
    [signalsM]: the A-side signals when FT0A is in use followed by the C-side
    signals when FT0C is in use.  With FT0A not in use they hold C-side
    contributions only, with FT0C not in use A-side contributions only. *)
Theorem C9_FT0M_sides st nmode coll ft0 :
  foundFT0 coll = Some ft0 ->
  use cfg "QvectorFT0As" || use cfg "QvectorFT0Cs" || use cfg "QvectorFT0Ms" = true ->
  let f := calFT0 st nmode coll in
  let acc := foldl (accumulate (helperEP st) 0 (FT0RelGainConst st) nmode) (C0, 0) in
  (QvecFT0M f, sumAmplFT0M f) = acc (signalsM ft0) /\
  (use cfg "QvectorFT0As" = false ->
     (QvecFT0M f, sumAmplFT0M f)
     = acc (if use cfg "QvectorFT0Cs" then signalsC ft0 else [])) /\
  (use cfg "QvectorFT0Cs" = false ->
     (QvecFT0M f, sumAmplFT0M f)
     = acc (if use cfg "QvectorFT0As" then signalsA ft0 else [])) /\
  (use cfg "QvectorFT0As" = true -> use cfg "QvectorFT0Cs" = true ->
     (QvecFT0M f, sumAmplFT0M f) = acc (signalsA ft0 ++ signalsC ft0)).
Proof.
  intros Hf Hb f acc. subst f.
  rewrite (calFT0_found st nmode coll ft0 Hf Hb). simpl.
  fold acc. unfold signalsM.
  repeat split.
  - by destruct (acc _).
  - intros ->. simpl. by destruct (acc _).
  - intros ->. rewrite app_nil_r. by destruct (acc _).
  - intros -> ->. by destruct (acc _).
Qed.

(** *** Gain constants *)

Lemma vec_at_replicate (n : nat) (x : R) (id : Z) :
  (0 <= id < Z.of_nat n)%Z -> vec_at (replicate n x) id = x.
Proof.
  intros Hid. unfold vec_at.
  destruct (Z.ltb_spec id 0) as [|_]; [lia|].
  apply lookup_total_replicate_2. lia.
Qed.

Lemma foldl_ext_in {A B} (f g : A -> B -> A) (l : list B) :
  (forall a x, x ∈ l -> f a x = g a x) -> forall a, foldl f a l = foldl g a l.
Proof.
  induction l as [|x l IH]; intros Hfg a; cbn [foldl]; [done|].
  rewrite (Hfg a x) by apply list_elem_of_here.
  apply IH. intros a' y Hy. apply Hfg. by apply list_elem_of_further.
Qed.

(** The channel identifiers of the signals are those of the channel array. *)
Lemma signals_channels chs ampls s : s ∈ signals chs ampls -> s.1 ∈ chs.
Proof.
  unfold signals. intros (i & ch & -> & Hi)%elem_of_lookup_imap_1.
  cbn [fst]. by eapply list_elem_of_lookup_2.
Qed.

(** With [n] gain constants equal to 1, a loop over channels below [n]
    hands [SumQvectors] the raw amplitudes. *)
Lemma accumulate_ones helper det (n : nat) nmode l :
  Forall (fun s : Z * R => (0 <= s.1 < Z.of_nat n)%Z) l ->
  forall a,
    foldl (accumulate helper det (replicate n 1) nmode) a l
    = foldl (fun acc s => SumQvectors helper det s.1 s.2 nmode acc) a l.
Proof.
  intros Hl. apply foldl_ext_in. intros a s Hs.
  rewrite Forall_forall in Hl. unfold accumulate.
  rewrite vec_at_replicate by (by apply Hl).
  by replace (s.2 / 1) with s.2 by lra.
Qed.

(** C7: when the alignment objects exist, [initCCDB] succeeds and keeps for
    each family the gain vector stored in the database, or 208 (FT0) or 48
    (FV0) constants equal to 1 when none is stored.  On that state every
    channel loop of [CalQvec] (FV0A, FT0A, FT0C and, inside the last two,
    FT0M) leaves what the calls of [SumQvectors] leave when each signal is
    handed over with its raw amplitude divided by the gain constant of its
    channel; and for a family without stored vector, with the channel
    numbers inside the family's range, the same loops leave what they leave
    when handed the raw amplitudes. *)
Theorem C7_gain_equalisation ccdb b st offsetFT0 offsetFV0 :
  getAlign ccdb "FT0/Calib/Align" (timestamp b) = Some offsetFT0 ->
  getAlign ccdb "FV0/Calib/Align" (timestamp b) = Some offsetFV0 ->
  exists st',
    initCCDB ccdb b st = Ok st' /\
    FT0RelGainConst st'
    = match getGain ccdb (cfgGainEqPath cfg +:+ "/FT0") (timestamp b) with
      | Some v => v
      | None => replicate 208 1
      end /\
    FV0RelGainConst st'
    = match getGain ccdb (cfgGainEqPath cfg +:+ "/FV0") (timestamp b) with
      | Some v => v
      | None => replicate 48 1
      end /\
    (getGain ccdb (cfgGainEqPath cfg +:+ "/FT0") (timestamp b) = None ->
       FT0RelGainConst st' = replicate 208 1 /\
       length (FT0RelGainConst st') = 208%nat /\
       forall id ampl, (0 <= id < 208)%Z ->
         ampl / vec_at (FT0RelGainConst st') id = ampl) /\
    (getGain ccdb (cfgGainEqPath cfg +:+ "/FV0") (timestamp b) = None ->
       FV0RelGainConst st' = replicate 48 1 /\
       length (FV0RelGainConst st') = 48%nat /\
       forall id ampl, (0 <= id < 48)%Z ->
         ampl / vec_at (FV0RelGainConst st') id = ampl) /\
    forall nmode coll,
      (* what the calls of [SumQvectors] leave for detector family [det]
         when the signal [(ch, ampl)] is handed over with the amplitude
         [amp ch ampl] *)
      let sums (det : Z) (amp : Z -> R -> R) (l : list (Z * R)) : TComplex * R :=
        foldl (fun acc s => SumQvectors (helperEP st') det s.1 (amp s.1 s.2) nmode acc)
              (C0, 0) l in
      let byFT0 (ch : Z) (ampl : R) := ampl / vec_at (FT0RelGainConst st') ch in
      let byFV0 (ch : Z) (ampl : R) := ampl / vec_at (FV0RelGainConst st') ch in
      let raw (ch : Z) (ampl : R) := ampl in
      (forall fv0,
         foundFV0 coll = Some fv0 -> use cfg "QvectorFV0As" = true ->
         let l := signals (channel fv0) (amplitude fv0) in
         calFV0 st' nmode coll = (normalise (sums 1%Z byFV0 l), (sums 1%Z byFV0 l).2) /\
         (getGain ccdb (cfgGainEqPath cfg +:+ "/FV0") (timestamp b) = None ->
          Forall (fun ch => 0 <= ch < 48)%Z (channel fv0) ->
          calFV0 st' nmode coll = (normalise (sums 1%Z raw l), (sums 1%Z raw l).2))) /\
      (forall ft0,
         foundFT0 coll = Some ft0 ->
         use cfg "QvectorFT0As" || use cfg "QvectorFT0Cs" || use cfg "QvectorFT0Ms" = true ->
         let lA := if use cfg "QvectorFT0As" then signalsA ft0 else [] in
         let lC := if use cfg "QvectorFT0Cs" then signalsC ft0 else [] in
         let block (amp : Z -> R -> R) : FT0Locals :=
           let accA := sums 0%Z amp lA in
           let accC := sums 0%Z amp lC in
           let accM := sums 0%Z amp (lA ++ lC) in
           {| qVectFT0A :=
                if use cfg "QvectorFT0As" then
                  if decide (accA.2 > 1e-8) then pairOf (TComplex_div accA.1 accA.2)
                  else (0, 0)
                else (999, 999);
              qVectFT0C := if use cfg "QvectorFT0Cs" then normalise accC else (-999, -999);
              qVectFT0M :=
                if bool_decide (accM.2 > 1e-8) && use cfg "QvectorFT0Ms"
                then pairOf (TComplex_div accM.1 accM.2) else (999, 999);
              sumAmplFT0A := accA.2; sumAmplFT0C := accC.2; sumAmplFT0M := accM.2;
              QvecFT0M := accM.1 |} in
         calFT0 st' nmode coll = block byFT0 /\
         (getGain ccdb (cfgGainEqPath cfg +:+ "/FT0") (timestamp b) = None ->
          Forall (fun ch => 0 <= ch < 208)%Z (channelA ft0) ->
          Forall (fun ch => 0 <= ch + 96 < 208)%Z (channelC ft0) ->
          calFT0 st' nmode coll = block raw)).
Proof.
  intros H0 H1.
  set (helper := setOffsets offsetFT0 offsetFV0).
  set (gFT0 := loadGain ccdb (timestamp b) "/FT0" 208).
  set (gFV0 := loadGain ccdb (timestamp b) "/FV0" 48).
  exists {| runNumber := runNumber st;
            FT0RelGainConst := gFT0;
            FV0RelGainConst := gFV0;
            objQvec := loadQvec ccdb (timestamp b) <$> cfgnMods cfg;
            helperEP := helper |}.
  split. { unfold initCCDB. by rewrite H0, H1. }
  cbn [FT0RelGainConst FV0RelGainConst helperEP].
  split; [done|]. split; [done|].
  assert (G0 : getGain ccdb (cfgGainEqPath cfg +:+ "/FT0") (timestamp b) = None ->
               gFT0 = replicate 208 1).
  { subst gFT0. unfold loadGain. by intros ->. }
  assert (G1 : getGain ccdb (cfgGainEqPath cfg +:+ "/FV0") (timestamp b) = None ->
               gFV0 = replicate 48 1).
  { subst gFV0. unfold loadGain. by intros ->. }
  clearbody gFT0 gFV0.
  split; [|split].
  - intros Hg. rewrite (G0 Hg).
    split; [done|]. split; [by rewrite length_replicate|].
    intros id ampl Hid. rewrite vec_at_replicate by lia. lra.
  - intros Hg. rewrite (G1 Hg).
    split; [done|]. split; [by rewrite length_replicate|].
    intros id ampl Hid. rewrite vec_at_replicate by lia. lra.
  - intros nmode coll. cbv zeta.
    set (st' := {| runNumber := runNumber st;
                   FT0RelGainConst := gFT0;
                   FV0RelGainConst := gFV0;
                   objQvec := loadQvec ccdb (timestamp b) <$> cfgnMods cfg;
                   helperEP := helper |}).
    split.
    + intros fv0 Hf Hu. split.
      * unfold calFV0. rewrite Hf, Hu. reflexivity.
      * intros Hg Hch. unfold calFV0. rewrite Hf, Hu. cbv zeta.
        unfold fv0Step. cbn [helperEP FV0RelGainConst st'].
        rewrite (G1 Hg).
        rewrite (accumulate_ones helper 1 48 nmode); [done|].
        apply Forall_forall. intros s Hs. apply signals_channels in Hs.
        rewrite Forall_forall in Hch. by apply Hch.
    + intros ft0 Hf Hu. split.
      * rewrite (calFT0_found st' nmode coll ft0 Hf Hu). reflexivity.
      * intros Hg HA HC.
        rewrite (calFT0_found st' nmode coll ft0 Hf Hu).
        cbv zeta. cbn [helperEP FT0RelGainConst st'].
        rewrite (G0 Hg). unfold signalsM.
        set (lA := if use cfg "QvectorFT0As" then signalsA ft0 else []).
        set (lC := if use cfg "QvectorFT0Cs" then signalsC ft0 else []).
        assert (HlA : Forall (fun s : Z * R => (0 <= s.1 < Z.of_nat 208)%Z) lA).
        { subst lA. destruct (use cfg "QvectorFT0As"); [|by constructor].
          apply Forall_forall. intros s Hs. apply signals_channels in Hs.
          rewrite Forall_forall in HA. specialize (HA _ Hs). lia. }
        assert (HlC : Forall (fun s : Z * R => (0 <= s.1 < Z.of_nat 208)%Z) lC).
        { subst lC. destruct (use cfg "QvectorFT0Cs"); [|by constructor].
          apply Forall_forall. intros s Hs. apply signals_channels in Hs.
          apply list_elem_of_fmap in Hs as (ch & -> & Hch).
          rewrite Forall_forall in HC. specialize (HC _ Hch). lia. }
        rewrite !(accumulate_ones helper 0 208 nmode lA) by done.
        rewrite !(accumulate_ones helper 0 208 nmode lC) by done.
        rewrite !(accumulate_ones helper 0 208 nmode (lA ++ lC))
          by (by apply Forall_app).
        reflexivity.
Qed.

(** *** The layout of the arrays *)

Lemma CalQvec_length st nmode coll track a :
  length (QvecRe (CalQvec st nmode coll track a)) = (length (QvecRe a) + 24)%nat /\
  length (QvecIm (CalQvec st nmode coll track a)) = (length (QvecIm a) + 24)%nat /\
  length (QvecAmp (CalQvec st nmode coll track a)) = (length (QvecAmp a) + 6)%nat.
Proof. unfold CalQvec; simpl. by rewrite !length_app. Qed.

(** C8: one call of [CalQvec] appends to the real and to the imaginary array
    24 entries, four equal copies for each of FT0C, FT0A, FT0M, FV0A, BPos,
    BNeg in this order, and to the amplitude array 6 entries in the same
    order; and the row written for a sub-system holds the entry at offset 3
    of the sub-system's group of four. *)
Theorem C8_CalQvec_layout st nmode coll track a cent flag v :
  let f := calFT0 st nmode coll in
  let fv := calFV0 st nmode coll in
  let t := calTracks nmode track (BPosLabels a) (BNegLabels a) in
  let r := CalQvec st nmode coll track a in
  let out := emit cent flag v r in
  let row (name : string) (k : nat) :=
    if use cfg name
    then Some (flag, v.1 !!! (k * 4 + 3)%nat, v.2 !!! (k * 4 + 3)%nat, QvecAmp r !!! k)
    else None in
  QvecRe r = QvecRe a
    ++ replicate 4 (qVectFT0C f).1 ++ replicate 4 (qVectFT0A f).1
    ++ replicate 4 (qVectFT0M f).1 ++ replicate 4 fv.1.1
    ++ replicate 4 (qVectBPos t).1 ++ replicate 4 (qVectBNeg t).1 /\
  QvecIm r = QvecIm a
    ++ replicate 4 (qVectFT0C f).2 ++ replicate 4 (qVectFT0A f).2
    ++ replicate 4 (qVectFT0M f).2 ++ replicate 4 fv.1.2
    ++ replicate 4 (qVectBPos t).2 ++ replicate 4 (qVectBNeg t).2 /\
  QvecAmp r = QvecAmp a
    ++ [sumAmplFT0C f; sumAmplFT0A f; sumAmplFT0M f; fv.2;
        IZR (nTrkBPos t); IZR (nTrkBNeg t)] /\
  length (QvecRe r) = (length (QvecRe a) + 24)%nat /\
  length (QvecIm r) = (length (QvecIm a) + 24)%nat /\
  length (QvecAmp r) = (length (QvecAmp a) + 6)%nat /\
  qVectorFT0C out = row "QvectorFT0Cs" 0%nat /\
  qVectorFT0A out = row "QvectorFT0As" 1%nat /\
  qVectorFT0M out = row "QvectorFT0Ms" 2%nat /\
  qVectorFV0A out = row "QvectorFV0As" 3%nat /\
  qVectorBPos out = option_map (fun x => (x, BPosLabels r)) (row "QvectorBPoss" 4%nat) /\
  qVectorBNeg out = option_map (fun x => (x, BNegLabels r)) (row "QvectorBNegs" 5%nat).
Proof.
  intros f fv t r out row.
  destruct (CalQvec_length st nmode coll track a) as (Hre & Him & Hamp).
  repeat split; try done.
Qed.

(** *** The track loop *)

Lemma trackStep_labels nmode s trk :
  let s' := trackStep nmode s trk in
  TrkBPosLabel s' = TrkBPosLabel s
    ++ (if decide (subEventOf trk = Some BPos) then [globalIndex trk] else []) /\
  TrkBNegLabel s' = TrkBNegLabel s
    ++ (if decide (subEventOf trk = Some BNeg) then [globalIndex trk] else []) /\
  nTrkBPos s' = (nTrkBPos s
    + if decide (subEventOf trk = Some BPos) then 1 else 0)%Z /\
  nTrkBNeg s' = (nTrkBNeg s
    + if decide (subEventOf trk = Some BNeg) then 1 else 0)%Z.
Proof.
  unfold trackStep, subEventOf.
  destruct (negb (SelTrack trk)); simpl.
  { rewrite !app_nil_r. repeat split; lia. }
  destruct (bool_decide (Rabs (eta trk) < 0.1) || bool_decide (Rabs (eta trk) > 0.8)); simpl.
  { rewrite !app_nil_r. repeat split; lia. }
  destruct (bool_decide (eta trk > 0) && use cfg "QvectorBPoss"); simpl.
  { rewrite !app_nil_r. repeat split; lia. }
  destruct (bool_decide (eta trk < 0) && use cfg "QvectorBNegs"); simpl.
  { rewrite !app_nil_r. repeat split; lia. }
  rewrite !app_nil_r. repeat split; lia.
Qed.

Lemma trackLoop_labels nmode tracks s :
  let s' := foldl (trackStep nmode) s tracks in
  TrkBPosLabel s' = TrkBPosLabel s
    ++ (globalIndex <$> filter (fun trk => subEventOf trk = Some BPos) tracks) /\
  TrkBNegLabel s' = TrkBNegLabel s
    ++ (globalIndex <$> filter (fun trk => subEventOf trk = Some BNeg) tracks) /\
  nTrkBPos s' = (nTrkBPos s
    + Z.of_nat (length (filter (fun trk => subEventOf trk = Some BPos) tracks)))%Z /\
  nTrkBNeg s' = (nTrkBNeg s
    + Z.of_nat (length (filter (fun trk => subEventOf trk = Some BNeg) tracks)))%Z.
Proof.
  revert s. induction tracks as [|trk tracks IH]; intros s; simpl.
  { rewrite !app_nil_r. repeat split; lia. }
  destruct (IH (trackStep nmode s trk)) as (-> & -> & -> & ->).
  destruct (trackStep_labels nmode s trk) as (-> & -> & -> & ->).
  rewrite !filter_cons.
  destruct (decide (subEventOf trk = Some BPos)) as [Hp|Hp];
    destruct (decide (subEventOf trk = Some BNeg)) as [Hn|Hn];
    simpl; rewrite <- ?app_assoc; simpl; rewrite ?app_nil_r;
    repeat split; lia.
Qed.

(** C5 (amended): the labels and counts of the two sub-events are those of
    the tracks [subEventOf] sends to BPos and to BNeg, in traversal order, so
    no track is in both.  A selected track with [0.1 <= |eta| <= 0.8] has
    [eta > 0] or [eta < 0]; it is in the positive sub-event in the first
    case and in the negative one in the second, provided the sub-event's
    sub-system is in use, and in neither when it is not.  A track that is not
    selected, or with [|eta| < 0.1] or [|eta| > 0.8], is in neither. *)
Theorem C5_track_partition nmode tracks lp ln :
  let t := calTracks nmode tracks lp ln in
  (TrkBPosLabel t
     = lp ++ (globalIndex <$> filter (fun trk => subEventOf trk = Some BPos) tracks) /\
   TrkBNegLabel t
     = ln ++ (globalIndex <$> filter (fun trk => subEventOf trk = Some BNeg) tracks) /\
   nTrkBPos t
     = Z.of_nat (length (filter (fun trk => subEventOf trk = Some BPos) tracks)) /\
   nTrkBNeg t
     = Z.of_nat (length (filter (fun trk => subEventOf trk = Some BNeg) tracks))) /\
  forall trk,
    (SelTrack trk = true -> 0.1 <= Rabs (eta trk) <= 0.8 ->
       (eta trk > 0 /\
        subEventOf trk = if use cfg "QvectorBPoss" then Some BPos else None) \/
       (eta trk < 0 /\
        subEventOf trk = if use cfg "QvectorBNegs" then Some BNeg else None)) /\
    (Rabs (eta trk) < 0.1 \/ Rabs (eta trk) > 0.8 -> subEventOf trk = None) /\
    (SelTrack trk = false -> subEventOf trk = None) /\
    ~ (subEventOf trk = Some BPos /\ subEventOf trk = Some BNeg).
Proof.
  intros t. split.
  - subst t. unfold calTracks. simpl.
    match goal with
    | |- context [foldl (trackStep nmode) ?s0 tracks] =>
      destruct (trackLoop_labels nmode tracks s0) as (-> & -> & -> & ->)
    end.
    simpl. repeat split; lia.
  - intros trk. repeat split.
    + intros Hsel [Hlo Hhi]. unfold subEventOf. rewrite Hsel. simpl.
      rewrite (bool_decide_eq_false_2 (Rabs (eta trk) < 0.1)) by lra.
      rewrite (bool_decide_eq_false_2 (Rabs (eta trk) > 0.8)) by lra.
      simpl.
      destruct (Rlt_dec 0 (eta trk)) as [Hpos|Hneg].
      * left. split; [lra|].
        rewrite (bool_decide_eq_true_2 (eta trk > 0)) by lra.
        rewrite (bool_decide_eq_false_2 (eta trk < 0)) by lra. simpl.
        by destruct (use cfg "QvectorBPoss").
      * right.
        assert (eta trk < 0).
        { destruct (Rle_dec 0 (eta trk)); [|lra].
          assert (eta trk = 0) as Hz by lra. rewrite Hz, Rabs_R0 in Hlo. lra. }
        split; [done|].
        rewrite (bool_decide_eq_false_2 (eta trk > 0)) by lra.
        rewrite (bool_decide_eq_true_2 (eta trk < 0)) by lra. simpl.
        by destruct (use cfg "QvectorBNegs").
    + intros Hout. unfold subEventOf.
      destruct (negb (SelTrack trk)); [done|].
      destruct Hout as [Hlo|Hhi].
      * by rewrite (bool_decide_eq_true_2 (Rabs (eta trk) < 0.1)).
      * rewrite (bool_decide_eq_true_2 (Rabs (eta trk) > 0.8)) by done.
        by rewrite orb_true_r.
    + intros Hsel. unfold subEventOf. by rewrite Hsel.
    + intros [Hp Hn]. congruence.
Qed.

(** *** What [CalQvec] appends *)

Lemma trackStep_q nmode s s' trk :
  qVectBPos s = qVectBPos s' -> qVectBNeg s = qVectBNeg s' ->
  nTrkBPos s = nTrkBPos s' -> nTrkBNeg s = nTrkBNeg s' ->
  qVectBPos (trackStep nmode s trk) = qVectBPos (trackStep nmode s' trk) /\
  qVectBNeg (trackStep nmode s trk) = qVectBNeg (trackStep nmode s' trk) /\
  nTrkBPos (trackStep nmode s trk) = nTrkBPos (trackStep nmode s' trk) /\
  nTrkBNeg (trackStep nmode s trk) = nTrkBNeg (trackStep nmode s' trk).
Proof.
  intros H1 H2 H3 H4. unfold trackStep.
  repeat match goal with
  | |- context [if ?b then _ else _] => destruct b
  end; simpl; rewrite ?H1, ?H2, ?H3, ?H4; done.
Qed.

Lemma trackLoop_q nmode tracks s s' :
  qVectBPos s = qVectBPos s' -> qVectBNeg s = qVectBNeg s' ->
  nTrkBPos s = nTrkBPos s' -> nTrkBNeg s = nTrkBNeg s' ->
  qVectBPos (foldl (trackStep nmode) s tracks)
    = qVectBPos (foldl (trackStep nmode) s' tracks) /\
  qVectBNeg (foldl (trackStep nmode) s tracks)
    = qVectBNeg (foldl (trackStep nmode) s' tracks) /\
  nTrkBPos (foldl (trackStep nmode) s tracks)
    = nTrkBPos (foldl (trackStep nmode) s' tracks) /\
  nTrkBNeg (foldl (trackStep nmode) s tracks)
    = nTrkBNeg (foldl (trackStep nmode) s' tracks).
Proof.
  revert s s'. induction tracks as [|trk tracks IH]; intros s s' H1 H2 H3 H4; simpl.
  { done. }
  destruct (trackStep_q nmode s s' trk H1 H2 H3 H4) as (? & ? & ? & ?).
  by apply IH.
Qed.

Lemma calTracks_q nmode tracks lp ln :
  qVectBPos (calTracks nmode tracks lp ln) = qVectBPos (calTracks nmode tracks [] []) /\
  qVectBNeg (calTracks nmode tracks lp ln) = qVectBNeg (calTracks nmode tracks [] []).
Proof.
  unfold calTracks; simpl.
  match goal with
  | |- context [foldl (trackStep nmode) ?s tracks] =>
    match goal with
    | |- context [foldl (trackStep nmode) ?s' tracks] =>
      lazymatch s with
      | s' => fail
      | _ => destruct (trackLoop_q nmode tracks s s') as (-> & -> & -> & ->); [done..|]
      end
    end
  end.
  done.
Qed.

Lemma CalQvec_pick st nmode coll track a n :
  length (QvecRe a) = n -> length (QvecIm a) = n ->
  let r := CalQvec st nmode coll track a in
  (forall j, (j < n)%nat -> pick (arraysOf r) j = pick (arraysOf a) j) /\
  (forall i k, (i < 6)%nat -> (k < 4)%nat ->
     pick (arraysOf r) (n + i * 4 + k) = rawQ st nmode coll track !!! i).
Proof.
  intros Hre Him r. subst r. unfold CalQvec, arraysOf, pick, rawQ, subsystems.
  cbn [QvecRe QvecIm fst snd]. split.
  - intros j Hj. by rewrite !lookup_total_app_l by lia.
  - intros i k Hi Hk.
    rewrite (lookup_total_app_r (QvecRe a)), (lookup_total_app_r (QvecIm a)) by lia.
    rewrite Hre, Him.
    replace (n + i * 4 + k - n)%nat with (i * 4 + k)%nat by lia.
    destruct (calTracks_q nmode track (BPosLabels a) (BNegLabels a)) as [-> ->].
    generalize (calTracks nmode track [] []). intros t.
    generalize (calFT0 st nmode coll) (calFV0 st nmode coll). intros f v.
    destruct i as [|[|[|[|[|[|i]]]]]]; try lia;
      destruct k as [|[|[|[|k]]]]; try lia; simpl;
      match goal with |- _ = ?q => by destruct q end.
Qed.

(** *** The calibration pass *)

Lemma correct_effect tables id cent base v :
  (base + 24 <= length v.1)%nat -> (base + 24 <= length v.2)%nat ->
  (cent < 80 -> exists h, tables !! id = Some (Some h)) ->
  exists w,
    correct tables id cent base v = Ok w /\
    length w.1 = length v.1 /\ length w.2 = length v.2 /\
    (forall j, (j < base \/ base + 24 <= j)%nat -> pick w j = pick v j) /\
    (forall i k, (i < 6)%nat -> (k < 4)%nat ->
       pick w (base + i * 4 + k)
       = calibrated tables id cent i k (pick v (base + i * 4 + k))).
Proof.
  intros H1 H2 Htab. unfold correct, calibrated.
  destruct (decide (cent < 80)) as [Hc|Hc].
  - destruct (Htab Hc) as [h Hh]. unfold tableAt. rewrite Hh. cbn [rbind].
    eexists. split; [reflexivity|].
    destruct (correct6_length h cent base v) as [-> ->].
    split; [done|]. split; [done|]. split.
    + intros j Hj. by apply correct6_outside.
    + intros i k Hi Hk.
      destruct (correct6_group h cent base v i H1 H2 Hi) as (G0 & G1 & G2 & G3).
      destruct k as [|[|[|[|k]]]]; try lia; simpl.
      * by rewrite Nat.add_0_r.
      * done.
      * done.
      * done.
  - exists v. repeat split; done.
Qed.

Lemma correct_null tables id cent base v :
  cent < 80 -> tables !! id = Some None ->
  correct tables id cent base v = Err NullDeref.
Proof.
  intros Hc Hn. unfold correct, tableAt. by rewrite decide_True, Hn.
Qed.

Lemma harmonicStep_effect st coll tracks cent acc id ind :
  length (QvecRe (arrays_vec acc)) = (24 * id)%nat ->
  length (QvecIm (arrays_vec acc)) = (24 * id)%nat ->
  (cent < 80 -> exists h, objQvec st !! id = Some (Some h)) ->
  exists acc',
    harmonicStep st coll tracks cent acc id ind = Ok acc' /\
    length (QvecRe (arrays_vec acc')) = (24 * S id)%nat /\
    length (QvecIm (arrays_vec acc')) = (24 * S id)%nat /\
    (forall j, (j < 24 * id)%nat ->
       pick (arraysOf (arrays_vec acc')) j = pick (arraysOf (arrays_vec acc)) j) /\
    (forall i k, (i < 6)%nat -> (k < 4)%nat ->
       pick (arraysOf (arrays_vec acc')) (24 * id + i * 4 + k)
       = calibrated (objQvec st) id cent i k (rawQ st ind coll tracks !!! i)).
Proof.
  intros Hre Him Htab. unfold harmonicStep.
  destruct (CalQvec_length st ind coll tracks (arrays_vec acc)) as (Lre & Lim & _).
  destruct (CalQvec_pick st ind coll tracks (arrays_vec acc) (24 * id) Hre Him)
    as [Pold Pnew].
  cbv zeta in Pold, Pnew |- *.
  set (a := CalQvec st ind coll tracks (arrays_vec acc)) in *.
  replace ((kBNeg + 1) * 4 * id)%nat with (24 * id)%nat by (unfold kBNeg; lia).
  destruct (correct_effect (objQvec st) id cent (24 * id) (QvecRe a, QvecIm a))
    as (w & -> & Wre & Wim & Wout & Win); cbn [fst snd]; [lia | lia | done |].
  cbn [fst snd] in Wre, Wim. eexists. split; [reflexivity|].
  cbn [arrays_vec QvecRe QvecIm].
  split; [lia|]. split; [lia|]. split.
  - intros j Hj. unfold arraysOf; cbn [QvecRe QvecIm].
    destruct w as [w1 w2]. cbn [fst snd]. rewrite (Wout j) by lia. by apply Pold.
  - intros i k Hi Hk. unfold arraysOf; cbn [QvecRe QvecIm].
    destruct w as [w1 w2]. cbn [fst snd]. rewrite (Win i k Hi Hk). by rewrite Pnew.
Qed.

Lemma harmonicsFrom_effect st coll tracks cent inds :
  forall id acc,
  length (QvecRe (arrays_vec acc)) = (24 * id)%nat ->
  length (QvecIm (arrays_vec acc)) = (24 * id)%nat ->
  (cent < 80 -> forall n, (n < length inds)%nat ->
     exists h, objQvec st !! (id + n)%nat = Some (Some h)) ->
  exists acc',
    harmonicsFrom st coll tracks cent id inds acc = Ok acc' /\
    length (QvecRe (arrays_vec acc')) = (24 * (id + length inds))%nat /\
    length (QvecIm (arrays_vec acc')) = (24 * (id + length inds))%nat /\
    (forall j, (j < 24 * id)%nat ->
       pick (arraysOf (arrays_vec acc')) j = pick (arraysOf (arrays_vec acc)) j) /\
    (forall n ind i k, inds !! n = Some ind -> (i < 6)%nat -> (k < 4)%nat ->
       pick (arraysOf (arrays_vec acc')) (24 * (id + n) + i * 4 + k)
       = calibrated (objQvec st) (id + n) cent i k (rawQ st ind coll tracks !!! i)).
Proof.
  induction inds as [|ind inds IH]; intros id acc Hre Him Htab; simpl.
  { exists acc. split; [done|]. rewrite Nat.add_0_r.
    split; [done|]. split; [done|]. split; [done|].
    intros n ind i k Hn. by rewrite lookup_nil in Hn. }
  destruct (harmonicStep_effect st coll tracks cent acc id ind Hre Him)
    as (acc1 & -> & Lre & Lim & Old1 & New1).
  { intros Hc. destruct (Htab Hc 0%nat) as [h Hh]; [simpl; lia|].
    rewrite Nat.add_0_r in Hh. by exists h. }
  simpl.
  destruct (IH (S id) acc1 Lre Lim) as (acc2 & -> & Lre2 & Lim2 & Old2 & New2).
  { intros Hc n Hn. destruct (Htab Hc (S n)) as [h Hh]; [simpl; lia|].
    replace (S id + n)%nat with (id + S n)%nat by lia. by exists h. }
  exists acc2. split; [done|].
  split; [rewrite Lre2; lia|]. split; [rewrite Lim2; lia|]. split.
  - intros j Hj. rewrite Old2 by lia. by apply Old1.
  - intros n ind' i k Hn Hi Hk. destruct n as [|n]; simpl in Hn.
    + injection Hn as <-. rewrite Nat.add_0_r.
      rewrite Old2 by lia. by apply New1.
    + replace (id + S n)%nat with (S id + n)%nat by lia. by apply New2.
Qed.

(** *** The event *)

Lemma static_cast_int_bin (cent : R) :
  0 <= cent < 80 ->
  static_cast_int cent = Int_part cent /\ (1 <= static_cast_int cent + 1 <= 80)%Z.
Proof.
  intros [Hlo Hhi]. unfold static_cast_int. rewrite decide_True by done.
  split; [done|].
  destruct (base_Int_part cent) as [Hle Hgt].
  assert (IZR (Int_part cent) < IZR 80) as H1 by lra.
  assert (IZR (-1) < IZR (Int_part cent)) as H2 by lra.
  apply lt_IZR in H1, H2. lia.
Qed.

Lemma centrality_inside coll :
  0 <= centEstim coll <= 80 -> centrality coll = (centEstim coll, true).
Proof.
  intros [Hlo Hhi]. unfold centrality.
  rewrite (bool_decide_eq_false_2 (centEstim coll < 0)) by lra.
  by rewrite (bool_decide_eq_false_2 (centEstim coll > 80)) by lra.
Qed.

Lemma centrality_outside coll :
  centEstim coll < 0 \/ centEstim coll > 80 -> centrality coll = (110, false).
Proof.
  intros H. unfold centrality. destruct H as [H|H].
  - by rewrite (bool_decide_eq_true_2 (centEstim coll < 0)).
  - rewrite (bool_decide_eq_true_2 (centEstim coll > 80)) by done.
    by rewrite orb_true_r.
Qed.

(** The event goes through whenever every histogram the passes read is
    there; the entries of both sets of arrays are then the calibrated raw
    Q-vectors. *)
Lemma processEvent_effect st coll tracks :
  let cent := (centrality coll).1 in
  (cent < 80 -> forall n, (n < length (cfgnMods cfg))%nat ->
     exists h, objQvec st !! n = Some (Some h)) ->
  (cent < 80 -> exists h, objQvec st !! 0%nat = Some (Some h)) ->
  exists out vl,
    processEvent st coll tracks = Ok out /\
    harmonics st coll tracks cent = Ok vl /\
    out_cent out = cent /\ out_IsCalibrated out = (centrality coll).2 /\
    (forall i k, (i < 6)%nat -> (k < 4)%nat ->
       pick (out_qvecRe out, out_qvecIm out) (i * 4 + k)
       = calibrated (objQvec st) 0 cent i k (rawQ st 2 coll tracks !!! i)) /\
    (forall n ind i k, cfgnMods cfg !! n = Some ind -> (i < 6)%nat -> (k < 4)%nat ->
       pick (arraysOf (arrays_vec vl)) (24 * n + i * 4 + k)
       = calibrated (objQvec st) n cent i k (rawQ st ind coll tracks !!! i)).
Proof.
  intros cent Hall H0. unfold processEvent, harmonics.
  subst cent. destruct (centrality coll) as [cent flag]. cbn [fst snd] in *.
  destruct (harmonicsFrom_effect st coll tracks cent (cfgnMods cfg) 0 noVecLocals)
    as (vl & Hvl & _ & _ & _ & Hnew); [done | done | |].
  { intros Hc n Hn. by apply Hall. }
  rewrite Hvl. cbn [rbind].
  destruct (CalQvec_length st 2 coll tracks noArrays) as (Lre & Lim & _).
  destruct (CalQvec_pick st 2 coll tracks noArrays 0) as [_ Pnew]; [done | done |].
  cbv zeta in Pnew.
  set (a := CalQvec st 2 coll tracks noArrays) in *.
  destruct (correct_effect (objQvec st) 0 cent 0 (QvecRe a, QvecIm a))
    as (w & -> & _ & _ & _ & Win); cbn [fst snd]; [simpl in *; lia .. | done |].
  cbn [rbind]. exists (emit cent flag w a), vl.
  split; [done|]. split; [done|]. split; [done|]. split; [done|]. split.
  - intros i k Hi Hk. cbn [emit out_qvecRe out_qvecIm].
    destruct w as [w1 w2]. cbn [fst snd].
    rewrite <- (Pnew i k Hi Hk). apply (Win i k Hi Hk).
  - intros n ind i k Hn Hi Hk. by apply (Hnew n ind i k).
Qed.

(** C1: for an event whose centrality is in [0, 80), with the histograms of
    all configured harmonics loaded, the event goes through, is flagged as
    calibrated, and in every group of four entries (sub-system [i] of six,
    for the arrays that are written out and for every position [id] of the
    loop over harmonics) entry 0 is the raw Q-vector, entry 1 the raw one
    after [DoRecenter], entry 2 after [DoRecenter] then [DoTwist], entry 3
    after [DoRecenter], [DoTwist] then [DoRescale]; the constants of the
    three calls are columns 1-2, 3-4 and 5-6 of bin
    [static_cast<int>(cent) + 1], which lies between 1 and 80. *)
Theorem C1_calibration_cascade st coll tracks h0 :
  0 <= centEstim coll < 80 ->
  (forall n, (n < length (cfgnMods cfg))%nat ->
     exists h, objQvec st !! n = Some (Some h)) ->
  objQvec st !! 0%nat = Some (Some h0) ->
  let cent := centEstim coll in
  let bin := (static_cast_int cent + 1)%Z in
  let stages (h : TH3F) (i : nat) (raw : R * R) (q : nat -> R * R) :=
    let c k := GetBinContent h bin k (Z.of_nat i + 1) in
    q 0%nat = raw /\
    q 1%nat = DoRecenter raw (c 1%Z) (c 2%Z) /\
    q 2%nat = DoTwist (DoRecenter raw (c 1%Z) (c 2%Z)) (c 3%Z) (c 4%Z) /\
    q 3%nat = DoRescale (DoTwist (DoRecenter raw (c 1%Z) (c 2%Z)) (c 3%Z) (c 4%Z))
                        (c 5%Z) (c 6%Z) in
  (1 <= bin <= 80)%Z /\ bin = (Int_part cent + 1)%Z /\
  exists out vl,
    processEvent st coll tracks = Ok out /\
    harmonics st coll tracks cent = Ok vl /\
    out_cent out = cent /\ out_IsCalibrated out = true /\
    (forall i, (i < 6)%nat ->
       stages h0 i (rawQ st 2 coll tracks !!! i)
         (fun k => pick (out_qvecRe out, out_qvecIm out) (i * 4 + k))) /\
    (forall id ind h, cfgnMods cfg !! id = Some ind ->
       objQvec st !! id = Some (Some h) ->
       forall i, (i < 6)%nat ->
       stages h i (rawQ st ind coll tracks !!! i)
         (fun k => pick (arraysOf (arrays_vec vl)) (24 * id + i * 4 + k))).
Proof.
  intros Hc Hall H0 cent bin stages.
  destruct (static_cast_int_bin cent Hc) as [Hip Hbin].
  split; [done|]. split; [unfold bin; by rewrite Hip|].
  pose proof (centrality_inside coll ltac:(lra)) as Hcen.
  destruct (processEvent_effect st coll tracks) as (out & vl & E1 & E2 & E3 & E4 & P0 & Pn).
  { intros _ n Hn. by apply Hall. }
  { intros _. by exists h0. }
  rewrite Hcen in *. cbn [fst snd] in *. fold cent in E2, E3, P0, Pn.
  exists out, vl. split; [done|]. split; [done|]. split; [done|]. split; [done|].
  assert (Hlt : cent < 80) by (unfold cent; lra).
  split.
  - intros i Hi. unfold stages.
    pose proof (P0 i 0%nat Hi ltac:(lia)) as Q0.
    pose proof (P0 i 1%nat Hi ltac:(lia)) as Q1.
    pose proof (P0 i 2%nat Hi ltac:(lia)) as Q2.
    pose proof (P0 i 3%nat Hi ltac:(lia)) as Q3.
    unfold calibrated in Q0, Q1, Q2, Q3.
    rewrite decide_True, H0 in Q0, Q1, Q2, Q3 by done.
    repeat split; done.
  - intros id ind h Hid Hh i Hi. unfold stages.
    pose proof (Pn id ind i 0%nat Hid Hi ltac:(lia)) as Q0.
    pose proof (Pn id ind i 1%nat Hid Hi ltac:(lia)) as Q1.
    pose proof (Pn id ind i 2%nat Hid Hi ltac:(lia)) as Q2.
    pose proof (Pn id ind i 3%nat Hid Hi ltac:(lia)) as Q3.
    unfold calibrated in Q0, Q1, Q2, Q3.
    rewrite decide_True, Hh in Q0, Q1, Q2, Q3 by done.
    repeat split; done.
Qed.

(** Outside the calibrated window nothing is corrected, and outside
    [0, 80] the event is flagged as not calibrated with centrality 110. *)
Lemma uncalibrated_noop st coll tracks :
  centEstim coll < 0 \/ 80 <= centEstim coll ->
  exists out vl,
    processEvent st coll tracks = Ok out /\
    harmonics st coll tracks (centrality coll).1 = Ok vl /\
    (forall i k, (i < 6)%nat -> (k < 4)%nat ->
       pick (out_qvecRe out, out_qvecIm out) (i * 4 + k)
       = rawQ st 2 coll tracks !!! i) /\
    (forall n ind i k, cfgnMods cfg !! n = Some ind -> (i < 6)%nat -> (k < 4)%nat ->
       pick (arraysOf (arrays_vec vl)) (24 * n + i * 4 + k)
       = rawQ st ind coll tracks !!! i) /\
    (centEstim coll < 0 \/ 80 < centEstim coll ->
       out_IsCalibrated out = false /\ out_cent out = 110).
Proof.
  intros Hc.
  assert (Hge : ~ (centrality coll).1 < 80).
  { destruct (Rle_dec (centEstim coll) 80) as [Hle|Hgt].
    - destruct Hc as [Hc|Hc].
      + rewrite centrality_outside by (left; lra). simpl. lra.
      + rewrite centrality_inside by lra. simpl. lra.
    - rewrite centrality_outside by (right; lra). simpl. lra. }
  destruct (processEvent_effect st coll tracks)
    as (out & vl & E1 & E2 & E3 & E4 & P0 & Pn); [done | done |].
  exists out, vl. split; [done|]. split; [done|]. split; [|split].
  - intros i k Hi Hk. rewrite (P0 i k Hi Hk). unfold calibrated.
    by rewrite decide_False.
  - intros n ind i k Hn Hi Hk. rewrite (Pn n ind i k Hn Hi Hk). unfold calibrated.
    by rewrite decide_False.
  - intros Hout. rewrite E3, E4, centrality_outside by (destruct Hout; [left|right]; lra).
    done.
Qed.

(** C3: an event whose centrality is exactly 80 is not corrected: all the
    entries of the arrays are the raw Q-vectors; but its flag says it is
    calibrated and its reported centrality is 80, not 110. *)
Theorem C3_centrality_80 st coll tracks :
  centEstim coll = 80 ->
  exists out vl,
    processEvent st coll tracks = Ok out /\
    harmonics st coll tracks 80 = Ok vl /\
    (forall i k, (i < 6)%nat -> (k < 4)%nat ->
       pick (out_qvecRe out, out_qvecIm out) (i * 4 + k)
       = rawQ st 2 coll tracks !!! i) /\
    (forall n ind i k, cfgnMods cfg !! n = Some ind -> (i < 6)%nat -> (k < 4)%nat ->
       pick (arraysOf (arrays_vec vl)) (24 * n + i * 4 + k)
       = rawQ st ind coll tracks !!! i) /\
    out_IsCalibrated out = true /\ out_cent out = 80.
Proof.
  intros H80.
  destruct (uncalibrated_noop st coll tracks) as (out & vl & E1 & E2 & P0 & Pn & _).
  { right. lra. }
  pose proof (centrality_inside coll ltac:(lra)) as Hcen.
  rewrite Hcen, H80 in E2. cbn [fst] in E2.
  exists out, vl. split; [done|]. split; [done|]. split; [done|]. split; [done|].
  revert E1. unfold processEvent. rewrite Hcen, H80.
  destruct (harmonics st coll tracks 80); cbn [rbind]; [|done].
  destruct (correct _ _ _ _ _); cbn [rbind]; [|done].
  intros [= <-]. done.
Qed.

(** *** Missing calibration histograms *)

Lemma harmonicsFrom_null st coll tracks cent inds :
  forall id acc,
  cent < 80 ->
  (forall n, (n < length inds)%nat -> is_Some (objQvec st !! (id + n)%nat)) ->
  (exists n, (n < length inds)%nat /\ objQvec st !! (id + n)%nat = Some None) ->
  harmonicsFrom st coll tracks cent id inds acc = Err NullDeref.
Proof.
  induction inds as [|ind inds IH]; intros id acc Hc Hall (n & Hn & Hnull); simpl in *.
  { lia. }
  unfold harmonicStep.
  destruct (Hall 0%nat ltac:(lia)) as [t Ht]. rewrite Nat.add_0_r in Ht.
  destruct t as [h|].
  - unfold correct at 1. rewrite decide_True by done. unfold tableAt. rewrite Ht.
    cbn [rbind]. apply IH; [done | |].
    + intros m Hm. replace (S id + m)%nat with (id + S m)%nat by lia.
      apply Hall. lia.
    + destruct n as [|n].
      * rewrite Nat.add_0_r in Hnull. congruence.
      * exists n. split; [lia|].
        by replace (S id + n)%nat with (id + S n)%nat by lia.
  - by rewrite correct_null.
Qed.

(** C6: at a reload, the histogram kept for a harmonic whose own histogram
    is not found is whatever the lookup of harmonic 2 gives; when that gives
    one, the corrections of the harmonic read it.  When it gives none, a
    null pointer is kept, nothing is skipped, and an event with centrality in
    [0, 80) ends in a call through the null pointer. *)
Theorem C6_missing_histogram ccdb st coll tracks offsetFT0 offsetFV0 id ind :
  runNumber st <> bc_runNumber (bc coll) ->
  getAlign ccdb "FT0/Calib/Align" (timestamp (bc coll)) = Some offsetFT0 ->
  getAlign ccdb "FV0/Calib/Align" (timestamp (bc coll)) = Some offsetFV0 ->
  cfgnMods cfg !! id = Some ind ->
  getTH3F ccdb (cfgQvecCalibPath cfg +:+ "/v" +:+ pretty ind) (timestamp (bc coll))
    = None ->
  let v2 := getTH3F ccdb (cfgQvecCalibPath cfg +:+ "/v2") (timestamp (bc coll)) in
  exists st',
    refresh ccdb st coll = Ok st' /\
    objQvec st' !! id = Some v2 /\
    (forall h2 cent i k q, v2 = Some h2 -> cent < 80 ->
       calibrated (objQvec st') id cent i k q = cascade h2 cent i k q) /\
    (v2 = None -> 0 <= centEstim coll < 80 ->
       process ccdb st coll tracks = Err NullDeref).
Proof.
  intros Hrun H0 H1 Hid Hown v2.
  unfold process, refresh, initCCDB. rewrite decide_False by done.
  rewrite H0, H1. cbn [rbind].
  eexists. split; [reflexivity|]. cbn [objQvec].
  assert (Hobj : (loadQvec ccdb (timestamp (bc coll)) <$> cfgnMods cfg) !! id = Some v2).
  { rewrite list_lookup_fmap, Hid. simpl. unfold loadQvec. by rewrite Hown. }
  split; [done|]. split.
  - intros h2 cent i k q Hv2 Hc. unfold calibrated.
    by rewrite decide_True, Hobj, Hv2.
  - intros Hv2 Hc. unfold processEvent.
    rewrite centrality_inside by lra.
    unfold harmonics. rewrite harmonicsFrom_null; [done | lra | |].
    + intros n Hn. cbn [objQvec]. apply lookup_lt_is_Some.
      rewrite length_fmap. simpl. lia.
    + exists id. split; [by apply lookup_lt_Some in Hid|].
      cbn [objQvec]. simpl. by rewrite Hobj, Hv2.
Qed.

(** *** Sentinels *)

(** FV0A follows the rule of the two sentinels. *)
Lemma FV0A_sentinels st nmode coll :
  (foundFV0 coll = None \/ use cfg "QvectorFV0As" = false ->
     (calFV0 st nmode coll).1 = (-999, -999)) /\
  (is_Some (foundFV0 coll) -> use cfg "QvectorFV0As" = true ->
     (calFV0 st nmode coll).2 <= 1e-8 -> (calFV0 st nmode coll).1 = (999, 999)).
Proof.
  unfold calFV0. split.
  - intros [-> | Hu]; [done|]. destruct (foundFV0 coll); [|done]. by rewrite Hu.
  - intros [fv0 ->] ->. simpl. intros Hs. unfold normalise.
    by rewrite decide_False by lra.
Qed.

Lemma subEventOf_not_in_use trk :
  (use cfg "QvectorBPoss" = false -> subEventOf trk <> Some BPos) /\
  (use cfg "QvectorBNegs" = false -> subEventOf trk <> Some BNeg).
Proof.
  unfold subEventOf. split; intros Hu; rewrite Hu, andb_false_r;
    repeat match goal with |- context [if ?b then _ else _] => destruct b end;
    done.
Qed.

Lemma filter_none {A} (P : A -> Prop) `{forall x, Decision (P x)} (l : list A) :
  (forall x, ~ P x) -> filter P l = [].
Proof.
  intros HP. induction l as [|x l IH]; [done|].
  by rewrite filter_cons_False.
Qed.

(** The track sub-events have one sentinel only: a sub-event without
    members, in use or not, gets (999, 999). *)
Lemma track_sentinels nmode tracks lp ln :
  let t := calTracks nmode tracks lp ln in
  ((nTrkBPos t <= 0)%Z -> qVectBPos t = (999, 999)) /\
  ((nTrkBNeg t <= 0)%Z -> qVectBNeg t = (999, 999)) /\
  (use cfg "QvectorBPoss" = false -> qVectBPos t = (999, 999)) /\
  (use cfg "QvectorBNegs" = false -> qVectBNeg t = (999, 999)).
Proof.
  intros t.
  assert (Hp : (nTrkBPos t <= 0)%Z -> qVectBPos t = (999, 999)).
  { intros Hn. subst t. unfold calTracks in *. cbn [nTrkBPos qVectBPos] in *.
    by rewrite decide_False by lia. }
  assert (Hn : (nTrkBNeg t <= 0)%Z -> qVectBNeg t = (999, 999)).
  { intros Hn. subst t. unfold calTracks in *. cbn [nTrkBNeg qVectBNeg] in *.
    by rewrite decide_False by lia. }
  split; [done|]. split; [done|].
  assert (Hc : nTrkBPos t
               = Z.of_nat (length (filter (fun trk => subEventOf trk = Some BPos) tracks))
               /\ nTrkBNeg t
               = Z.of_nat (length (filter (fun trk => subEventOf trk = Some BNeg) tracks))).
  { subst t. unfold calTracks. cbn [nTrkBPos nTrkBNeg].
    match goal with
    | |- context [foldl (trackStep nmode) ?s0 tracks] =>
      destruct (trackLoop_labels nmode tracks s0) as (_ & _ & -> & ->)
    end.
    simpl. lia. }
  destruct Hc as [Cp Cn].
  split; intros Hu.
  - apply Hp. rewrite Cp, filter_none; [simpl; lia|].
    intros trk. by apply subEventOf_not_in_use.
  - apply Hn. rewrite Cn, filter_none; [simpl; lia|].
    intros trk. by apply subEventOf_not_in_use.
Qed.

(** C2: once the FT0 block is entered (FT0 found and one of FT0A, FT0C,
    FT0M in use), FT0C follows the rule of the two sentinels, but FT0A does
    not: in use with an amplitude sum at or below the threshold it is left
    at (0, 0), and not in use it gets (999, 999); FT0M not in use gets
    (999, 999) as well. *)
Theorem C2_FT0_sentinels st nmode coll ft0 :
  foundFT0 coll = Some ft0 ->
  use cfg "QvectorFT0As" || use cfg "QvectorFT0Cs" || use cfg "QvectorFT0Ms" = true ->
  let f := calFT0 st nmode coll in
  (use cfg "QvectorFT0As" = true -> sumAmplFT0A f <= 1e-8 -> qVectFT0A f = (0, 0)) /\
  (use cfg "QvectorFT0As" = false -> qVectFT0A f = (999, 999)) /\
  (use cfg "QvectorFT0Ms" = false -> qVectFT0M f = (999, 999)) /\
  (use cfg "QvectorFT0Ms" = true -> sumAmplFT0M f <= 1e-8 -> qVectFT0M f = (999, 999)) /\
  (use cfg "QvectorFT0Cs" = true -> sumAmplFT0C f <= 1e-8 -> qVectFT0C f = (999, 999)) /\
  (use cfg "QvectorFT0Cs" = false -> qVectFT0C f = (-999, -999)).
Proof.
  intros Hf Hb f. subst f. rewrite (calFT0_found st nmode coll ft0 Hf Hb).
  cbn [qVectFT0A qVectFT0C qVectFT0M sumAmplFT0A sumAmplFT0C sumAmplFT0M].
  split; [|split; [|split; [|split; [|split]]]].
  - intros -> Hs. by rewrite decide_False by lra.
  - by intros ->.
  - intros ->. by rewrite andb_false_r.
  - intros -> Hs. by rewrite bool_decide_eq_false_2 by lra.
  - intros -> Hs. unfold normalise. by rewrite decide_False by lra.
  - by intros ->.
Qed.

(** *** The track sub-events *)

Lemma subEventOf_Some trk e :
  subEventOf trk = Some e ->
  SelTrack trk = true /\ 0.1 <= Rabs (eta trk) <= 0.8 /\
  match e with
  | BPos => eta trk > 0 /\ use cfg "QvectorBPoss" = true
  | BNeg => eta trk < 0 /\ use cfg "QvectorBNegs" = true
  end.
Proof.
  unfold subEventOf.
  destruct (SelTrack trk); [|done]. cbn [negb].
  destruct (bool_decide (Rabs (eta trk) < 0.1)) eqn:Hlo; [done|].
  destruct (bool_decide (Rabs (eta trk) > 0.8)) eqn:Hhi; [done|].
  apply bool_decide_eq_false in Hlo, Hhi. cbn [orb].
  destruct (bool_decide (eta trk > 0)) eqn:Hp; cbn [andb].
  - apply bool_decide_eq_true in Hp.
    destruct (use cfg "QvectorBPoss") eqn:Hu.
    + intros [= <-]. repeat split; lra.
    + destruct (bool_decide (eta trk < 0)) eqn:Hn; cbn [andb]; [|done].
      apply bool_decide_eq_true in Hn. lra.
  - destruct (bool_decide (eta trk < 0)) eqn:Hn; cbn [andb]; [|done].
    apply bool_decide_eq_true in Hn.
    destruct (use cfg "QvectorBNegs") eqn:Hu; [|done].
    intros [= <-]. repeat split; lra.
Qed.

Lemma SelTrack_window trk :
  SelTrack trk = true -> cfgMinPtOnTPC cfg <= pt trk <= cfgMaxPtOnTPC cfg.
Proof.
  unfold SelTrack.
  destruct (decide (pt trk < cfgMinPtOnTPC cfg)); [done|].
  destruct (decide (pt trk > cfgMaxPtOnTPC cfg)); [done|].
  intros _. lra.
Qed.

Lemma trackStep_sum nmode s trk :
  let add (q d : R * R) := (q.1 + d.1, q.2 + d.2) in
  qVectBPos (trackStep nmode s trk)
    = add (qVectBPos s) (trackSum nmode (members BPos [trk])) /\
  qVectBNeg (trackStep nmode s trk)
    = add (qVectBNeg s) (trackSum nmode (members BNeg [trk])).
Proof.
  intros add. subst add. unfold members. rewrite !filter_cons, !filter_nil.
  unfold trackStep, subEventOf.
  destruct (qVectBPos s) as [px py] eqn:Ep, (qVectBNeg s) as [nx ny] eqn:En.
  repeat match goal with
  | |- context [if ?b then _ else _] =>
    lazymatch b with
    | decide _ => fail
    | _ => destruct b
    end
  end;
  repeat case_decide; try done; cbn [qVectBPos qVectBNeg trackSum fst snd];
  rewrite ?Ep, ?En; cbn [fst snd]; split; f_equal; lra.
Qed.

Lemma trackLoop_sum nmode tracks s :
  let add (q d : R * R) := (q.1 + d.1, q.2 + d.2) in
  qVectBPos (foldl (trackStep nmode) s tracks)
    = add (qVectBPos s) (trackSum nmode (members BPos tracks)) /\
  qVectBNeg (foldl (trackStep nmode) s tracks)
    = add (qVectBNeg s) (trackSum nmode (members BNeg tracks)).
Proof.
  intros add. revert s. induction tracks as [|trk tracks IH]; intros s.
  - subst add. cbn. destruct (qVectBPos s), (qVectBNeg s). cbn.
    split; f_equal; lra.
  - cbn [foldl]. destruct (IH (trackStep nmode s trk)) as [-> ->].
    destruct (trackStep_sum nmode s trk) as [-> ->].
    subst add. unfold members. rewrite !filter_cons, !filter_nil.
    repeat case_decide; cbn [trackSum fst snd]; split; f_equal; lra.
Qed.

Lemma trackSum_bound nmode l :
  Forall (fun trk => 0 <= pt trk) l ->
  0 <= ptSum l /\
  (trackSum nmode l).1 * (trackSum nmode l).1
  + (trackSum nmode l).2 * (trackSum nmode l).2 <= ptSum l * ptSum l.
Proof.
  induction 1 as [|trk l Hs _ [IHw IHq]]; cbn [trackSum ptSum fst snd]; [lra|].
  set (X := (trackSum nmode l).1) in *.
  set (Y := (trackSum nmode l).2) in *.
  set (W := ptSum l) in *.
  pose proof (sin2_cos2 (phi trk * IZR nmode)) as Hu. unfold Rsqr in Hu.
  set (c := cos (phi trk * IZR nmode)) in *.
  set (d := sin (phi trk * IZR nmode)) in *.
  assert (Hcs : c * X + d * Y <= W).
  { destruct (Rle_dec (c * X + d * Y) W) as [|Hn]; [done|].
    exfalso. apply Rnot_le_lt in Hn.
    assert ((c * X + d * Y) * (c * X + d * Y) <= W * W).
    { pose proof (Rle_0_sqr (c * Y - d * X)) as Hsq. unfold Rsqr in Hsq. nra. }
    nra. }
  split; [lra|]. nra.
Qed.

Lemma ptSum_le (m : R) l :
  Forall (fun trk => pt trk <= m) l -> ptSum l <= INR (length l) * m.
Proof.
  induction 1 as [|trk l Hs _ IH]; [cbn; lra|].
  cbn [ptSum length]. rewrite S_INR. lra.
Qed.

Lemma magnitude_le (x y w b : R) :
  0 < w -> 0 <= b -> x * x + y * y <= (w * b) * (w * b) ->
  magnitude (x / w, y / w) <= b.
Proof.
  intros Hw Hb Hxy. unfold magnitude; cbn [fst snd].
  rewrite <- (sqrt_square b) by done. apply sqrt_le_1_alt.
  replace (x / w * (x / w) + y / w * (y / w)) with ((x * x + y * y) / (w * w))
    by (field; lra).
  assert (Hww : 0 < w * w) by nra.
  apply (Rmult_le_reg_r (w * w)); [done|].
  unfold Rdiv. rewrite Rmult_assoc, Rinv_l by lra. lra.
Qed.

Lemma members_facts e tracks :
  Forall (fun trk => cfgMinPtOnTPC cfg <= pt trk <= cfgMaxPtOnTPC cfg)
         (members e tracks).
Proof.
  apply Forall_forall. intros trk Hin. unfold members in Hin.
  apply list_elem_of_filter in Hin as [Hs _].
  apply subEventOf_Some in Hs as [Hsel _]. by apply SelTrack_window.
Qed.

Lemma calTracks_mean nmode tracks lp ln :
  let t := calTracks nmode tracks lp ln in
  nTrkBPos t = Z.of_nat (length (members BPos tracks)) /\
  nTrkBNeg t = Z.of_nat (length (members BNeg tracks)) /\
  (members BPos tracks <> [] ->
     qVectBPos t
     = ((trackSum nmode (members BPos tracks)).1 / INR (length (members BPos tracks)),
        (trackSum nmode (members BPos tracks)).2 / INR (length (members BPos tracks)))) /\
  (members BNeg tracks <> [] ->
     qVectBNeg t
     = ((trackSum nmode (members BNeg tracks)).1 / INR (length (members BNeg tracks)),
        (trackSum nmode (members BNeg tracks)).2 / INR (length (members BNeg tracks)))).
Proof.
  intros t. subst t. unfold calTracks.
  cbn [nTrkBPos nTrkBNeg qVectBPos qVectBNeg].
  match goal with
  | |- context [foldl (trackStep nmode) ?s0 tracks] =>
    destruct (trackLoop_labels nmode tracks s0) as (_ & _ & -> & ->);
    destruct (trackLoop_sum nmode tracks s0) as (-> & ->)
  end.
  fold (members BPos tracks) (members BNeg tracks).
  cbn [nTrkBPos nTrkBNeg qVectBPos qVectBNeg fst snd].
  rewrite !Z.add_0_l, !Rplus_0_l, <- !INR_IZR_INZ.
  split; [done|]. split; [done|]. split; intros Hne.
  - rewrite decide_True; [done|].
    destruct (members BPos tracks); [done|]. cbn [length]. lia.
  - rewrite decide_True; [done|].
    destruct (members BNeg tracks); [done|]. cbn [length]. lia.
Qed.

Lemma mean_bound nmode (l : list Track) :
  0 <= cfgMinPtOnTPC cfg ->
  Forall (fun trk => cfgMinPtOnTPC cfg <= pt trk <= cfgMaxPtOnTPC cfg) l ->
  l <> [] ->
  magnitude ((trackSum nmode l).1 / INR (length l), (trackSum nmode l).2 / INR (length l))
  <= cfgMaxPtOnTPC cfg.
Proof.
  intros Hmin Hall Hne.
  assert (Hn : 0 < INR (length l)).
  { destruct l; [done|]. apply lt_0_INR. cbn [length]. lia. }
  assert (Hmax : 0 <= cfgMaxPtOnTPC cfg).
  { destruct l as [|trk l]; [done|]. apply Forall_cons in Hall as [? _]. lra. }
  destruct (trackSum_bound nmode l) as [Hw Hq].
  { eapply Forall_impl; [exact Hall|]. cbn. intros; lra. }
  pose proof (ptSum_le (cfgMaxPtOnTPC cfg) l) as Hle.
  assert (ptSum l <= INR (length l) * cfgMaxPtOnTPC cfg).
  { apply Hle. eapply Forall_impl; [exact Hall|]. cbn. intros; lra. }
  apply magnitude_le; [done | done |]. nra.
Qed.

(** X1: the Q-vector of a track sub-event with members is the arithmetic
    mean over its members of [pt * (cos, sin)(phi * nmode)], the count being
    the number of members; when the lower momentum cut is not negative, its
    magnitude is at most the upper momentum cut. *)
Theorem X1_track_mean nmode tracks lp ln :
  0 <= cfgMinPtOnTPC cfg ->
  let t := calTracks nmode tracks lp ln in
  let mean (l : list Track) :=
    ((trackSum nmode l).1 / INR (length l), (trackSum nmode l).2 / INR (length l)) in
  nTrkBPos t = Z.of_nat (length (members BPos tracks)) /\
  nTrkBNeg t = Z.of_nat (length (members BNeg tracks)) /\
  (members BPos tracks <> [] ->
     qVectBPos t = mean (members BPos tracks) /\
     magnitude (qVectBPos t) <= cfgMaxPtOnTPC cfg) /\
  (members BNeg tracks <> [] ->
     qVectBNeg t = mean (members BNeg tracks) /\
     magnitude (qVectBNeg t) <= cfgMaxPtOnTPC cfg).
Proof.
  intros Hmin t mean.
  destruct (calTracks_mean nmode tracks lp ln) as (Np & Nn & Qp & Qn).
  fold t in Np, Nn, Qp, Qn.
  split; [done|]. split; [done|]. split; intros Hne.
  - rewrite (Qp Hne). split; [done|].
    apply mean_bound; [done | apply members_facts | done].
  - rewrite (Qn Hne). split; [done|].
    apply mean_bound; [done | apply members_facts | done].
Qed.

(** *** Counts and labels *)

Lemma calTracks_counts nmode tracks lp ln :
  let t := calTracks nmode tracks lp ln in
  TrkBPosLabel t = lp ++ (globalIndex <$> members BPos tracks) /\
  TrkBNegLabel t = ln ++ (globalIndex <$> members BNeg tracks) /\
  nTrkBPos t = Z.of_nat (length (members BPos tracks)) /\
  nTrkBNeg t = Z.of_nat (length (members BNeg tracks)).
Proof.
  intros t. subst t. unfold calTracks, members.
  cbn [TrkBPosLabel TrkBNegLabel nTrkBPos nTrkBNeg].
  match goal with
  | |- context [foldl (trackStep nmode) ?s0 tracks] =>
    destruct (trackLoop_labels nmode tracks s0) as (-> & -> & -> & ->)
  end.
  cbn. repeat split; lia.
Qed.

(** *** The loop over harmonics *)

Lemma harmonicStep_vecs st coll tracks cent acc id ind acc' :
  harmonicStep st coll tracks cent acc id ind = Ok acc' ->
  (forall k, (k < 6)%nat ->
     perSubsystem acc' !!! k
     = perSubsystem acc !!! k
       ++ [pick (arraysOf (arrays_vec acc')) (24 * id + k * 4 + 3)]) /\
  QvecAmp (arrays_vec acc') = QvecAmp (CalQvec st ind coll tracks (arrays_vec acc)) /\
  BPosLabels (arrays_vec acc') = BPosLabels (CalQvec st ind coll tracks (arrays_vec acc)) /\
  BNegLabels (arrays_vec acc') = BNegLabels (CalQvec st ind coll tracks (arrays_vec acc)).
Proof.
  unfold harmonicStep.
  replace ((kBNeg + 1) * 4 * id)%nat with (24 * id)%nat by (unfold kBNeg; lia).
  destruct (correct _ _ _ _ _) as [v|e]; cbn [rbind]; [|done].
  intros [= <-]. cbn [arrays_vec QvecAmp BPosLabels BNegLabels].
  split; [|done].
  intros k Hk. unfold perSubsystem, arraysOf.
  cbn [qvecFT0C_vec qvecFT0A_vec qvecFT0M_vec qvecFV0A_vec qvecBPos_vec qvecBNeg_vec
       arrays_vec QvecRe QvecIm].
  destruct v as [v1 v2]. cbn [fst snd].
  destruct k as [|[|[|[|[|[|k]]]]]]; try lia; reflexivity.
Qed.

Lemma harmonicsFrom_vecs st coll tracks cent inds :
  forall id acc,
  length (QvecRe (arrays_vec acc)) = (24 * id)%nat ->
  length (QvecIm (arrays_vec acc)) = (24 * id)%nat ->
  (cent < 80 -> forall n, (n < length inds)%nat ->
     exists h, objQvec st !! (id + n)%nat = Some (Some h)) ->
  exists acc',
    harmonicsFrom st coll tracks cent id inds acc = Ok acc' /\
    (forall k, (k < 6)%nat ->
       perSubsystem acc' !!! k
       = perSubsystem acc !!! k
         ++ imap (fun n ind => calibrated (objQvec st) (id + n) cent k 3
                                 (rawQ st ind coll tracks !!! k)) inds) /\
    length (QvecAmp (arrays_vec acc'))
      = (length (QvecAmp (arrays_vec acc)) + 6 * length inds)%nat /\
    BPosLabels (arrays_vec acc')
      = BPosLabels (arrays_vec acc)
        ++ mjoin (replicate (length inds) (globalIndex <$> members BPos tracks)) /\
    BNegLabels (arrays_vec acc')
      = BNegLabels (arrays_vec acc)
        ++ mjoin (replicate (length inds) (globalIndex <$> members BNeg tracks)).
Proof.
  induction inds as [|ind inds IH]; intros id acc Hre Him Htab.
  { exists acc. split; [done|]. cbn. rewrite !app_nil_r, Nat.add_0_r.
    repeat split; try done. intros k _. by rewrite app_nil_r. }
  cbn [harmonicsFrom].
  destruct (harmonicStep_effect st coll tracks cent acc id ind Hre Him)
    as (acc1 & E1 & Lre & Lim & Old1 & New1).
  { intros Hc. destruct (Htab Hc 0%nat) as [h Hh]; [simpl; lia|].
    rewrite Nat.add_0_r in Hh. by exists h. }
  rewrite E1. cbn [rbind].
  destruct (harmonicStep_vecs _ _ _ _ _ _ _ _ E1) as (V1 & A1 & P1 & N1).
  destruct (IH (S id) acc1 Lre Lim) as (acc2 & E2 & V2 & A2 & P2 & N2).
  { intros Hc n Hn. destruct (Htab Hc (S n)) as [h Hh]; [simpl; lia|].
    replace (S id + n)%nat with (id + S n)%nat by lia. by exists h. }
  exists acc2. split; [done|].
  destruct (CalQvec_length st ind coll tracks (arrays_vec acc)) as (_ & _ & LA).
  split; [|split; [|split]].
  - intros k Hk. rewrite (V2 k Hk), (V1 k Hk), <- app_assoc. f_equal.
    cbn [imap app]. rewrite Nat.add_0_r, (New1 k 3%nat Hk) by lia. f_equal.
    apply imap_ext. intros n x _. unfold compose.
    by replace (S id + n)%nat with (id + S n)%nat by lia.
  - rewrite A2, A1, LA. cbn [length]. lia.
  - rewrite P2, P1. unfold CalQvec. cbn [BPosLabels].
    destruct (calTracks_counts ind tracks (BPosLabels (arrays_vec acc))
                (BNegLabels (arrays_vec acc))) as (-> & _).
    cbn [length replicate mjoin list_join]. by rewrite <- !app_assoc.
  - rewrite N2, N1. unfold CalQvec. cbn [BNegLabels].
    destruct (calTracks_counts ind tracks (BPosLabels (arrays_vec acc))
                (BNegLabels (arrays_vec acc))) as (_ & -> & _).
    cbn [length replicate mjoin list_join]. by rewrite <- !app_assoc.
Qed.

(** X2: when every histogram the loop reads is there (or nothing is
    corrected), the loop over the configured harmonics goes through; the
    real and imaginary arrays then hold 24 entries and the amplitude array 6
    entries per harmonic, and the vector of sub-system [k] holds one
    Q-vector per harmonic, in the order of [cfgnMods]: the raw Q-vector of
    that harmonic after recentering, twist and rescaling with the harmonic's
    own histogram when the centrality is below 80, the raw one otherwise. *)
Theorem X2_harmonic_vectors st coll tracks cent :
  (cent < 80 -> forall n, (n < length (cfgnMods cfg))%nat ->
     exists h, objQvec st !! n = Some (Some h)) ->
  exists vl,
    harmonics st coll tracks cent = Ok vl /\
    length (QvecRe (arrays_vec vl)) = (24 * length (cfgnMods cfg))%nat /\
    length (QvecIm (arrays_vec vl)) = (24 * length (cfgnMods cfg))%nat /\
    length (QvecAmp (arrays_vec vl)) = (6 * length (cfgnMods cfg))%nat /\
    forall k, (k < 6)%nat ->
      perSubsystem vl !!! k
      = imap (fun n ind => calibrated (objQvec st) n cent k 3
                             (rawQ st ind coll tracks !!! k)) (cfgnMods cfg).
Proof.
  intros Htab. unfold harmonics.
  destruct (harmonicsFrom_effect st coll tracks cent (cfgnMods cfg) 0 noVecLocals)
    as (vl & E & Lre & Lim & _); [done | done | exact Htab |].
  destruct (harmonicsFrom_vecs st coll tracks cent (cfgnMods cfg) 0 noVecLocals)
    as (vl' & E' & V & A & _); [done | done | exact Htab |].
  rewrite E in E'. injection E' as <-.
  exists vl. split; [done|]. split; [done|]. split; [done|]. split; [exact A|].
  intros k Hk. rewrite (V k Hk).
  destruct k as [|[|[|[|[|[|k]]]]]]; try lia; reflexivity.
Qed.

(** X3: the label vectors of the loop over harmonics are never cleared
    between harmonics: after the loop they hold the labels of the members
    of the sub-event once per configured harmonic, whereas the label
    vectors written out, filled by the single call for harmonic 2, hold them
    once. *)
Theorem X3_labels_per_harmonic st coll tracks cent :
  (cent < 80 -> forall n, (n < length (cfgnMods cfg))%nat ->
     exists h, objQvec st !! n = Some (Some h)) ->
  exists vl,
    harmonics st coll tracks cent = Ok vl /\
    BPosLabels (arrays_vec vl)
      = mjoin (replicate (length (cfgnMods cfg)) (globalIndex <$> members BPos tracks)) /\
    BNegLabels (arrays_vec vl)
      = mjoin (replicate (length (cfgnMods cfg)) (globalIndex <$> members BNeg tracks)) /\
    BPosLabels (CalQvec st 2 coll tracks noArrays) = globalIndex <$> members BPos tracks /\
    BNegLabels (CalQvec st 2 coll tracks noArrays) = globalIndex <$> members BNeg tracks.
Proof.
  intros Htab. unfold harmonics.
  destruct (harmonicsFrom_vecs st coll tracks cent (cfgnMods cfg) 0 noVecLocals)
    as (vl & E & _ & _ & P & N); [done | done | exact Htab |].
  exists vl. split; [done|]. split; [exact P|]. split; [exact N|].
  unfold CalQvec. cbn [BPosLabels BNegLabels noArrays].
  by destruct (calTracks_counts 2 tracks [] []) as (-> & -> & _).
Qed.

(** *** The rows of an event *)

Lemma correct_length tables id cent base v w :
  correct tables id cent base v = Ok w ->
  length w.1 = length v.1 /\ length w.2 = length v.2.
Proof.
  unfold correct. destruct (decide (cent < 80)); [|by intros [= <-]].
  destruct (tableAt tables id) as [h|]; cbn [rbind]; [|done].
  intros [= <-]. apply correct6_length.
Qed.

Lemma processEvent_emit st coll tracks out :
  processEvent st coll tracks = Ok out ->
  exists v,
    correct (objQvec st) 0 (centrality coll).1 0
      (arraysOf (CalQvec st 2 coll tracks noArrays)) = Ok v /\
    out = emit (centrality coll).1 (centrality coll).2 v
            (CalQvec st 2 coll tracks noArrays).
Proof.
  unfold processEvent. destruct (centrality coll) as [cent flag].
  destruct (harmonics st coll tracks cent) as [vl|]; cbn [rbind]; [|done].
  cbv zeta. unfold arraysOf. set (a := CalQvec st 2 coll tracks noArrays).
  destruct (correct _ _ _ _ _) as [v|] eqn:E; cbn [rbind]; [|done].
  intros H. exists v. split; [done|]. cbn [fst snd]. congruence.
Qed.

Lemma CalQvec_labels st nmode coll tracks :
  BPosLabels (CalQvec st nmode coll tracks noArrays) = globalIndex <$> members BPos tracks /\
  BNegLabels (CalQvec st nmode coll tracks noArrays) = globalIndex <$> members BNeg tracks.
Proof.
  unfold CalQvec. cbn [BPosLabels BNegLabels noArrays].
  by destruct (calTracks_counts nmode tracks [] []) as (-> & -> & _).
Qed.

(** The rows of an event that went through, in terms of what is written to
    the arrays. *)
Lemma processEvent_rows st coll tracks out :
  processEvent st coll tracks = Ok out ->
  out_cent out = (centrality coll).1 /\
  out_IsCalibrated out = (centrality coll).2 /\
  length (out_qvecRe out) = 24%nat /\ length (out_qvecIm out) = 24%nat /\
  out_qvecAmp out = QvecAmp (CalQvec st 2 coll tracks noArrays) /\
  let row (name : string) (i : nat) :=
    if use cfg name
    then Some (out_IsCalibrated out,
               (pick (out_qvecRe out, out_qvecIm out) (i * 4 + 3)).1,
               (pick (out_qvecRe out, out_qvecIm out) (i * 4 + 3)).2,
               out_qvecAmp out !!! i)
    else None in
  qVectorFT0C out = row "QvectorFT0Cs" 0%nat /\
  qVectorFT0A out = row "QvectorFT0As" 1%nat /\
  qVectorFT0M out = row "QvectorFT0Ms" 2%nat /\
  qVectorFV0A out = row "QvectorFV0As" 3%nat /\
  qVectorBPos out
    = option_map (fun r => (r, globalIndex <$> members BPos tracks))
        (row "QvectorBPoss" 4%nat) /\
  qVectorBNeg out
    = option_map (fun r => (r, globalIndex <$> members BNeg tracks))
        (row "QvectorBNegs" 5%nat).
Proof.
  intros E. destruct (processEvent_emit st coll tracks out E) as (v & Hv & Hout).
  destruct (correct_length _ _ _ _ _ _ Hv) as [L1 L2].
  unfold arraysOf in L1, L2. cbn [fst snd] in L1, L2.
  destruct (CalQvec_length st 2 coll tracks noArrays) as (Lre & Lim & _).
  rewrite Lre in L1. rewrite Lim in L2.
  destruct (CalQvec_labels st 2 coll tracks) as [Lp Ln].
  rewrite Hout.
  cbn [emit out_cent out_IsCalibrated out_qvecRe out_qvecIm out_qvecAmp
       qVectorFT0C qVectorFT0A qVectorFT0M qVectorFV0A qVectorBPos qVectorBNeg].
  rewrite Lp, Ln. destruct v as [v1 v2]. cbn [fst snd] in *.
  unfold rowOf, pick, kFT0C, kFT0A, kFT0M, kFV0A, kBPos, kBNeg. cbn [fst snd].
  repeat split; done.
Qed.

Lemma rawQ_lookup st nmode coll tracks :
  rawQ st nmode coll tracks !!! 0%nat = qVectFT0C (calFT0 st nmode coll) /\
  rawQ st nmode coll tracks !!! 1%nat = qVectFT0A (calFT0 st nmode coll) /\
  rawQ st nmode coll tracks !!! 2%nat = qVectFT0M (calFT0 st nmode coll) /\
  rawQ st nmode coll tracks !!! 3%nat = (calFV0 st nmode coll).1 /\
  rawQ st nmode coll tracks !!! 4%nat = qVectBPos (calTracks nmode tracks [] []) /\
  rawQ st nmode coll tracks !!! 5%nat = qVectBNeg (calTracks nmode tracks [] []).
Proof. done. Qed.

(** X4: an event whose centrality estimate is negative or above 80 goes
    through with any state of the histograms: it is reported with
    centrality 110 and flagged as not calibrated, all 24 entries of its
    arrays are the raw Q-vectors of harmonic 2, and the row of every
    sub-system in use carries the flag, the raw Q-vector and the amplitude
    sum or member count. *)
Theorem X4_uncalibrated_event st coll tracks :
  centEstim coll < 0 \/ 80 < centEstim coll ->
  exists out,
    processEvent st coll tracks = Ok out /\
    out_cent out = 110 /\ out_IsCalibrated out = false /\
    length (out_qvecRe out) = 24%nat /\ length (out_qvecIm out) = 24%nat /\
    (forall i k, (i < 6)%nat -> (k < 4)%nat ->
       pick (out_qvecRe out, out_qvecIm out) (i * 4 + k)
       = rawQ st 2 coll tracks !!! i) /\
    let row (name : string) (i : nat) :=
      if use cfg name
      then Some (false, (rawQ st 2 coll tracks !!! i).1, (rawQ st 2 coll tracks !!! i).2,
                 out_qvecAmp out !!! i)
      else None in
    qVectorFT0C out = row "QvectorFT0Cs" 0%nat /\
    qVectorFT0A out = row "QvectorFT0As" 1%nat /\
    qVectorFT0M out = row "QvectorFT0Ms" 2%nat /\
    qVectorFV0A out = row "QvectorFV0As" 3%nat /\
    qVectorBPos out
      = option_map (fun r => (r, globalIndex <$> members BPos tracks))
          (row "QvectorBPoss" 4%nat) /\
    qVectorBNeg out
      = option_map (fun r => (r, globalIndex <$> members BNeg tracks))
          (row "QvectorBNegs" 5%nat).
Proof.
  intros Hc.
  destruct (uncalibrated_noop st coll tracks) as (out & vl & E & _ & P0 & _ & Hflag).
  { destruct Hc; [left|right]; lra. }
  destruct (Hflag Hc) as [Hf Hcen].
  exists out. split; [done|]. split; [done|]. split; [done|].
  destruct (processEvent_rows st coll tracks out E)
    as (_ & _ & Lre & Lim & _ & R0 & R1 & R2 & R3 & R4 & R5).
  split; [done|]. split; [done|]. split; [exact P0|].
  intros row. subst row. cbv beta.
  rewrite R0, R1, R2, R3, R4, R5, Hf.
  rewrite (P0 0%nat 3%nat), (P0 1%nat 3%nat), (P0 2%nat 3%nat), (P0 3%nat 3%nat),
    (P0 4%nat 3%nat), (P0 5%nat 3%nat) by lia.
  repeat split; done.
Qed.

(** X5: the sentinels are not kept apart from real Q-vectors by the
    corrections.  For a centrality in [0, 80) with the histograms loaded, a
    sub-system whose raw Q-vector is a sentinel (no FV0 or FT0 signal:
    (-999, -999); a track sub-event without members: (999, 999)) has entry
    0 of its group equal to the sentinel and entries 1 to 3 equal to the
    sentinel after recentering, twist and rescaling, and the row of a track
    sub-event without members holds the rescaled sentinel, flagged as
    calibrated, with no labels. *)
Theorem X5_sentinels_are_corrected st coll tracks h0 :
  0 <= centEstim coll < 80 ->
  objQvec st !! 0%nat = Some (Some h0) ->
  (forall n, (n < length (cfgnMods cfg))%nat -> exists h, objQvec st !! n = Some (Some h)) ->
  let cent := centEstim coll in
  exists out,
    processEvent st coll tracks = Ok out /\
    out_IsCalibrated out = true /\
    (foundFV0 coll = None -> forall k, (k < 4)%nat ->
       pick (out_qvecRe out, out_qvecIm out) (3 * 4 + k) = cascade h0 cent 3 k (-999, -999)) /\
    (foundFT0 coll = None -> forall i k, (i < 3)%nat -> (k < 4)%nat ->
       pick (out_qvecRe out, out_qvecIm out) (i * 4 + k) = cascade h0 cent i k (-999, -999)) /\
    (members BPos tracks = [] ->
       (forall k, (k < 4)%nat ->
          pick (out_qvecRe out, out_qvecIm out) (4 * 4 + k) = cascade h0 cent 4 k (999, 999)) /\
       qVectorBPos out
       = if use cfg "QvectorBPoss"
         then Some (true, (rescaled h0 cent 4 (999, 999)).1,
                    (rescaled h0 cent 4 (999, 999)).2, 0, [])
         else None) /\
    (members BNeg tracks = [] ->
       (forall k, (k < 4)%nat ->
          pick (out_qvecRe out, out_qvecIm out) (5 * 4 + k) = cascade h0 cent 5 k (999, 999)) /\
       qVectorBNeg out
       = if use cfg "QvectorBNegs"
         then Some (true, (rescaled h0 cent 5 (999, 999)).1,
                    (rescaled h0 cent 5 (999, 999)).2, 0, [])
         else None).
Proof.
  intros Hc H0 Hall cent.
  assert (Hcen : centrality coll = (cent, true)) by (apply centrality_inside; lra).
  destruct (processEvent_effect st coll tracks) as (out & vl & E & _ & _ & Hf & P0 & _).
  { intros _. exact Hall. }
  { intros _. by exists h0. }
  rewrite Hcen in Hf, P0. cbn [fst snd] in Hf, P0.
  assert (P : forall i k, (i < 6)%nat -> (k < 4)%nat ->
            pick (out_qvecRe out, out_qvecIm out) (i * 4 + k)
            = cascade h0 cent i k (rawQ st 2 coll tracks !!! i)).
  { intros i k Hi Hk. rewrite (P0 i k Hi Hk). unfold calibrated.
    rewrite decide_True by (unfold cent; lra). by rewrite H0. }
  destruct (processEvent_rows st coll tracks out E)
    as (_ & _ & _ & _ & Hamp & _ & _ & _ & _ & R4 & R5).
  destruct (rawQ_lookup st 2 coll tracks) as (Q0 & Q1 & Q2 & Q3 & Q4 & Q5).
  destruct (calTracks_counts 2 tracks [] []) as (_ & _ & Np & Nn).
  destruct (track_sentinels 2 tracks [] []) as (Sp & Sn & _ & _).
  exists out. split; [done|]. split; [done|]. split; [|split; [|split]].
  - intros Hfv k Hk. rewrite (P 3%nat k) by lia. rewrite Q3.
    by rewrite (proj1 (FV0A_sentinels st 2 coll)) by (by left).
  - intros Hft i k Hi Hk. rewrite (P i k) by lia.
    destruct (calFT0_skipped st 2 coll) as (SA & SC & SM); [by left|].
    destruct i as [|[|[|i]]]; try lia.
    + by rewrite Q0, SC.
    + by rewrite Q1, SA.
    + by rewrite Q2, SM.
  - intros Hm. rewrite Hm in Np, R4. cbn [length] in Np.
    assert (Hq : rawQ st 2 coll tracks !!! 4%nat = (999, 999)).
    { rewrite Q4. apply Sp. lia. }
    split.
    + intros k Hk. rewrite (P 4%nat k) by lia. by rewrite Hq.
    + rewrite R4, Hf, (P 4%nat 3%nat), Hq, Hamp by lia.
      destruct (use cfg "QvectorBPoss"); [|done]. cbn [option_map cascade].
      change (QvecAmp (CalQvec st 2 coll tracks noArrays) !!! 4%nat)
        with (IZR (nTrkBPos (calTracks 2 tracks [] []))).
      by rewrite Np.
  - intros Hm. rewrite Hm in Nn, R5. cbn [length] in Nn.
    assert (Hq : rawQ st 2 coll tracks !!! 5%nat = (999, 999)).
    { rewrite Q5. apply Sn. lia. }
    split.
    + intros k Hk. rewrite (P 5%nat k) by lia. by rewrite Hq.
    + rewrite R5, Hf, (P 5%nat 3%nat), Hq, Hamp by lia.
      destruct (use cfg "QvectorBNegs"); [|done]. cbn [option_map cascade].
      change (QvecAmp (CalQvec st 2 coll tracks noArrays) !!! 5%nat)
        with (IZR (nTrkBNeg (calTracks 2 tracks [] []))).
      by rewrite Nn.
Qed.

(** *** Errors of an event *)

Lemma correct_error tables id cent base v e :
  correct tables id cent base v = Err e ->
  cent < 80 /\
  ((tables !! id = None /\ e = OutOfRange) \/ (tables !! id = Some None /\ e = NullDeref)).
Proof.
  unfold correct, tableAt. destruct (decide (cent < 80)) as [Hc|]; [|done].
  destruct (tables !! id) as [[h|]|]; cbn [rbind]; [done | |];
    intros [= <-]; split; auto.
Qed.

Lemma harmonicsFrom_error st coll tracks cent inds :
  forall id acc e,
  harmonicsFrom st coll tracks cent id inds acc = Err e ->
  cent < 80 /\
  exists n, (n < length inds)%nat /\
    ((objQvec st !! (id + n)%nat = None /\ e = OutOfRange)
     \/ (objQvec st !! (id + n)%nat = Some None /\ e = NullDeref)).
Proof.
  induction inds as [|ind inds IH]; intros id acc e; cbn [harmonicsFrom]; [done|].
  destruct (harmonicStep st coll tracks cent acc id ind) as [acc'|e'] eqn:E; cbn [rbind].
  - intros H. destruct (IH _ _ _ H) as (Hc & n & Hn & Hcase). split; [done|].
    exists (S n). cbn [length]. split; [lia|].
    by replace (id + S n)%nat with (S id + n)%nat by lia.
  - intros [= <-]. revert E. unfold harmonicStep.
    destruct (correct _ _ _ _ _) as [w|e''] eqn:Ec; cbn [rbind]; [done|].
    intros [= <-]. destruct (correct_error _ _ _ _ _ _ Ec) as [Hc Hcase].
    split; [done|]. exists 0%nat. cbn [length]. split; [lia|].
    by rewrite Nat.add_0_r.
Qed.

Lemma processEvent_error st coll tracks e :
  processEvent st coll tracks = Err e ->
  (centrality coll).1 < 80 /\
  exists n, (n < Nat.max 1 (length (cfgnMods cfg)))%nat /\
    ((objQvec st !! n = None /\ e = OutOfRange)
     \/ (objQvec st !! n = Some None /\ e = NullDeref)).
Proof.
  unfold processEvent. destruct (centrality coll) as [cent flag]. cbn [fst].
  destruct (harmonics st coll tracks cent) as [vl|e'] eqn:E; cbn [rbind].
  - destruct (correct _ _ _ _ _) as [w|e''] eqn:Ec; cbn [rbind]; [done|].
    intros [= <-]. destruct (correct_error _ _ _ _ _ _ Ec) as [Hc Hcase].
    split; [done|]. exists 0%nat. split; [lia | done].
  - intros [= <-]. unfold harmonics in E.
    destruct (harmonicsFrom_error _ _ _ _ _ _ _ _ E) as (Hc & n & Hn & Hcase).
    split; [done|]. exists n. split; [lia | done].
Qed.

Lemma centrality_lt_80 coll :
  (centrality coll).1 < 80 <-> 0 <= centEstim coll < 80.
Proof.
  destruct (Rlt_dec (centEstim coll) 0) as [Hlo|Hlo].
  { rewrite centrality_outside by (by left). cbn [fst]. lra. }
  destruct (Rgt_dec (centEstim coll) 80) as [Hhi|Hhi].
  { rewrite centrality_outside by (by right). cbn [fst]. lra. }
  rewrite centrality_inside by lra. cbn [fst]. lra.
Qed.

(** X6: on a cache that holds one entry per configured harmonic (what a
    reload leaves), the only errors of an event are the two of
    [objQvec.at(id)->...]; the loop over harmonics never reads past the end
    of [objQvec], and [std::out_of_range] is raised exactly when no harmonic
    is configured and the centrality is in [0, 80): the corrections of the
    arrays written out read [objQvec.at(0)] of an empty vector. *)
Theorem X6_out_of_range st coll tracks :
  length (objQvec st) = length (cfgnMods cfg) ->
  (processEvent st coll tracks = Err OutOfRange
   <-> cfgnMods cfg = [] /\ 0 <= centEstim coll < 80) /\
  (forall e, processEvent st coll tracks = Err e ->
     0 <= centEstim coll < 80 /\
     ((e = OutOfRange /\ cfgnMods cfg = [])
      \/ (e = NullDeref /\ exists n, (n < length (cfgnMods cfg))%nat
                                    /\ objQvec st !! n = Some None))).
Proof.
  intros Hlen.
  assert (Herr : forall e, processEvent st coll tracks = Err e ->
     0 <= centEstim coll < 80 /\
     ((e = OutOfRange /\ cfgnMods cfg = [])
      \/ (e = NullDeref /\ exists n, (n < length (cfgnMods cfg))%nat
                                    /\ objQvec st !! n = Some None))).
  { intros e E. destruct (processEvent_error _ _ _ _ E) as (Hc & n & Hn & Hcase).
    split; [by apply centrality_lt_80|].
    destruct Hcase as [[Hnone ->] | [Hnull ->]].
    - left. split; [done|]. apply lookup_ge_None in Hnone.
      destruct (cfgnMods cfg); [done|]. cbn [length] in *. lia.
    - right. split; [done|]. exists n. split; [|done].
      apply lookup_lt_Some in Hnull. lia. }
  split; [|exact Herr]. split.
  - intros E. destruct (Herr _ E) as [Hc [[_ Hnil] | [[=] _]]]. done.
  - intros [Hnil Hc]. unfold processEvent, harmonics.
    rewrite centrality_inside by lra. rewrite Hnil. cbn [harmonicsFrom rbind].
    unfold correct. rewrite decide_True by lra. unfold tableAt.
    rewrite Hnil in Hlen. destruct (objQvec st); [done | discriminate].
Qed.

(** *** The cache of a run *)

Lemma refresh_same ccdb st coll :
  runNumber st = bc_runNumber (bc coll) -> refresh ccdb st coll = Ok st.
Proof. intros H. unfold refresh. by rewrite decide_True. Qed.

Lemma refresh_reload ccdb st coll :
  runNumber st <> bc_runNumber (bc coll) ->
  refresh ccdb st coll
  = match getAlign ccdb "FT0/Calib/Align" (timestamp (bc coll)) with
    | None => Err (Fatal "Could not get the alignment parameters for FT0.")
    | Some offsetFT0 =>
      match getAlign ccdb "FV0/Calib/Align" (timestamp (bc coll)) with
      | None => Err (Fatal "Could not get the alignment parameters for FV0.")
      | Some offsetFV0 =>
        Ok {| runNumber := bc_runNumber (bc coll);
              FT0RelGainConst := loadGain ccdb (timestamp (bc coll)) "/FT0" 208;
              FV0RelGainConst := loadGain ccdb (timestamp (bc coll)) "/FV0" 48;
              objQvec := loadQvec ccdb (timestamp (bc coll)) <$> cfgnMods cfg;
              helperEP := setOffsets offsetFT0 offsetFV0 |}
      end
    end.
Proof.
  intros H. unfold refresh, initCCDB. rewrite decide_False by done.
  destruct (getAlign ccdb "FT0/Calib/Align" _); [|done].
  by destruct (getAlign ccdb "FV0/Calib/Align" _).
Qed.

(** X7: the cache is keyed by the run number alone.  After an event went
    through the reload test, the run number kept is the event's; the state
    is untouched when the run number was already the event's, and holds one
    histogram entry per configured harmonic otherwise; and every later event
    of the same run is processed on that state as it is, whatever the
    conditions database then holds and whatever the event's timestamp. *)
Theorem X7_run_cache ccdb st c1 st1 :
  refresh ccdb st c1 = Ok st1 ->
  runNumber st1 = bc_runNumber (bc c1) /\
  (runNumber st = bc_runNumber (bc c1) -> st1 = st) /\
  (runNumber st <> bc_runNumber (bc c1) ->
     length (objQvec st1) = length (cfgnMods cfg)) /\
  (forall ccdb' c2 tracks,
     bc_runNumber (bc c2) = bc_runNumber (bc c1) ->
     process ccdb' st1 c2 tracks
     = let* out := processEvent st1 c2 tracks in Ok (st1, out)).
Proof.
  intros E.
  assert (Hrun : runNumber st1 = bc_runNumber (bc c1)).
  { destruct (decide (runNumber st = bc_runNumber (bc c1))) as [Heq|Hne].
    - rewrite refresh_same in E by done. by injection E as <-.
    - rewrite refresh_reload in E by done.
      destruct (getAlign ccdb "FT0/Calib/Align" _); [|done].
      destruct (getAlign ccdb "FV0/Calib/Align" _); [|done].
      by injection E as <-. }
  split; [done|]. split; [|split].
  - intros Heq. rewrite refresh_same in E by done. by injection E as <-.
  - intros Hne. rewrite refresh_reload in E by done.
    destruct (getAlign ccdb "FT0/Calib/Align" _); [|done].
    destruct (getAlign ccdb "FV0/Calib/Align" _); [|done].
    injection E as <-. cbn [objQvec]. by rewrite length_fmap.
  - intros ccdb' c2 tracks H2. unfold process.
    rewrite refresh_same by congruence. done.
Qed.

(** X8: an event ends in a fatal error exactly when its run number differs
    from the cached one and an alignment object is missing at the event's
    timestamp: the one of FT0, tested first, or else the one of FV0.  A
    missing gain vector or calibration histogram is never fatal, and no
    event of the cached run is. *)
Theorem X8_fatal_errors ccdb st coll tracks msg :
  process ccdb st coll tracks = Err (Fatal msg)
  <-> runNumber st <> bc_runNumber (bc coll) /\
      ((getAlign ccdb "FT0/Calib/Align" (timestamp (bc coll)) = None
        /\ msg = "Could not get the alignment parameters for FT0.")
       \/ (is_Some (getAlign ccdb "FT0/Calib/Align" (timestamp (bc coll)))
           /\ getAlign ccdb "FV0/Calib/Align" (timestamp (bc coll)) = None
           /\ msg = "Could not get the alignment parameters for FV0.")).
Proof.
  unfold process.
  destruct (decide (runNumber st = bc_runNumber (bc coll))) as [Heq|Hne].
  - rewrite refresh_same by done. cbn [rbind]. split; [|by intros [? _]].
    destruct (processEvent st coll tracks) as [out|e] eqn:E; cbn [rbind]; [done|].
    intros [= ->]. destruct (processEvent_error _ _ _ _ E) as (_ & n & _ & Hcase).
    by destruct Hcase as [[_ [=]] | [_ [=]]].
  - rewrite refresh_reload by done.
    destruct (getAlign ccdb "FT0/Calib/Align" _) as [ft0|]; cbn [rbind].
    + destruct (getAlign ccdb "FV0/Calib/Align" _) as [fv0|]; cbn [rbind].
      * split.
        -- match goal with
           | |- context [processEvent ?s coll tracks] =>
             destruct (processEvent s coll tracks) as [out|e] eqn:E
           end; cbn [rbind]; [done|].
           intros [= ->]. destruct (processEvent_error _ _ _ _ E) as (_ & n & _ & Hcase).
           by destruct Hcase as [[_ [=]] | [_ [=]]].
        -- intros [_ [[[=] _] | (_ & [=] & _)]].
      * split.
        -- intros [= <-]. split; [done|]. right. by eauto.
        -- intros [_ [[[=] _] | (_ & _ & ->)]]. done.
    + split.
      * intros [= <-]. split; [done|]. by left.
      * intros [_ [[_ ->] | ([? [=]] & _)]]. done.
Qed.

(** X9: end to end, for the first event of a run with both alignment
    objects found, a centrality in [0, 80) and a histogram found for every
    configured harmonic: the event goes through, and the harmonic-2
    Q-vectors that are written out are corrected with the histogram kept
    for the first configured harmonic, whichever harmonic that is. *)
Theorem X9_first_configured_harmonic ccdb st coll tracks ind0 rest h0 :
  runNumber st <> bc_runNumber (bc coll) ->
  is_Some (getAlign ccdb "FT0/Calib/Align" (timestamp (bc coll))) ->
  is_Some (getAlign ccdb "FV0/Calib/Align" (timestamp (bc coll))) ->
  cfgnMods cfg = ind0 :: rest ->
  loadQvec ccdb (timestamp (bc coll)) ind0 = Some h0 ->
  (forall ind, ind ∈ rest -> is_Some (loadQvec ccdb (timestamp (bc coll)) ind)) ->
  0 <= centEstim coll < 80 ->
  exists st' out,
    process ccdb st coll tracks = Ok (st', out) /\
    runNumber st' = bc_runNumber (bc coll) /\
    out_IsCalibrated out = true /\
    forall i k, (i < 6)%nat -> (k < 4)%nat ->
      pick (out_qvecRe out, out_qvecIm out) (i * 4 + k)
      = cascade h0 (centEstim coll) i k (rawQ st' 2 coll tracks !!! i).
Proof.
  intros Hne [ft0 Hft0] [fv0 Hfv0] Hmods Hh0 Hrest Hc.
  unfold process. rewrite refresh_reload by done. rewrite Hft0, Hfv0. cbn [rbind].
  match goal with
  | |- context [processEvent ?s coll tracks] => set (st' := s)
  end.
  assert (H0 : objQvec st' !! 0%nat = Some (Some h0)).
  { subst st'. cbn [objQvec]. rewrite Hmods. cbn. by rewrite Hh0. }
  destruct (processEvent_effect st' coll tracks) as (out & vl & E & _ & _ & Hf & P0 & _).
  { intros _ n Hn. subst st'. cbn [objQvec]. rewrite list_lookup_fmap.
    destruct (lookup_lt_is_Some_2 (cfgnMods cfg) n Hn) as [ind Hind].
    rewrite Hind. cbn.
    assert (Hs : is_Some (loadQvec ccdb (timestamp (bc coll)) ind)).
    { rewrite Hmods in Hind. destruct n as [|n].
      - injection Hind as <-. by rewrite Hh0.
      - apply Hrest. apply (list_elem_of_lookup_2 rest n). exact Hind. }
    destruct Hs as [h ->]. by exists h. }
  { intros _. by exists h0. }
  rewrite E. cbn [rbind]. exists st', out. split; [done|]. split; [done|].
  rewrite centrality_inside in Hf, P0 by lra. cbn [fst snd] in Hf, P0.
  split; [done|]. intros i k Hi Hk. rewrite (P0 i k Hi Hk). unfold calibrated.
  rewrite decide_True by lra. by rewrite H0.
Qed.

End Task.

(** ** Instances *)

(** C1, at an instance: a collision of centrality 10 with both histograms
    loaded goes through and is flagged as calibrated. *)
Lemma C1_calibration_cascade_witness :
  exists out,
    processEvent Examples.GetPhi Examples.DoTwist Examples.cfgAll Examples.cache
      (Examples.collision 10 []) [] = Ok out /\
    out_IsCalibrated out = true /\ out_cent out = 10.
Proof.
  destruct (C1_calibration_cascade Examples.GetPhi Examples.DoTwist Examples.cfgAll
              Examples.cache (Examples.collision 10 []) [] (Examples.hist 2))
    as (_ & _ & out & vl & E & _ & Hc & Hf & _).
  - change (centEstim Examples.cfgAll (Examples.collision 10 [])) with 10. lra.
  - intros n Hn. destruct n as [|[|n]]; simpl in Hn; [by eexists .. | lia].
  - reflexivity.
  - exists out. split; [exact E|]. split; [exact Hf|]. exact Hc.
Defined.

(** C3, at an instance: a collision of centrality exactly 80 is reported as
    calibrated, with centrality 80. *)
Lemma C3_centrality_80_witness :
  exists out,
    processEvent Examples.GetPhi Examples.DoTwist Examples.cfgAll Examples.cache
      (Examples.collision 80 []) [] = Ok out /\
    out_IsCalibrated out = true /\ out_cent out = 80.
Proof.
  destruct (C3_centrality_80 Examples.GetPhi Examples.DoTwist Examples.cfgAll
              Examples.cache (Examples.collision 80 []) [])
    as (out & vl & E & _ & _ & _ & Hf & Hc).
  - reflexivity.
  - exists out. split; [exact E|]. split; [exact Hf|]. exact Hc.
Defined.

(** C6, at an instance: harmonics 2 and 3 configured, no histogram in the
    database; the first event of a run, at centrality 10, ends in a call
    through a null pointer. *)
Lemma C6_missing_histogram_witness :
  process Examples.GetPhi Examples.DoTwist Examples.cfgAll Examples.ccdbBare
    initialState (Examples.collision 10 []) [] = Err NullDeref.
Proof.
  destruct (C6_missing_histogram Examples.GetPhi Examples.DoTwist Examples.cfgAll
              Examples.ccdbBare initialState (Examples.collision 10 []) []
              [{| getX := 0; getY := 0 |}; {| getX := 0; getY := 0 |}]
              [{| getX := 0; getY := 0 |}; {| getX := 0; getY := 0 |}]
              1%nat 3%Z)
    as (st' & _ & _ & _ & Hcrash);
    [simpl; lia | reflexivity | reflexivity | reflexivity | reflexivity |].
  apply Hcrash; [reflexivity|].
    change (centEstim Examples.cfgAll (Examples.collision 10 [])) with 10. lra.
Defined.

(** C7, at two instances: no gain vector in the database, where the FV0
    loop over channels 0 and 1 leaves what the raw amplitudes 2 and 1 give;
    and the gain vector [2; 4] stored, which is the one kept. *)
Lemma C7_gain_equalisation_witness :
  (exists st',
     initCCDB Examples.cfgAll Examples.ccdbBare {| bc_runNumber := 1; timestamp := 0 |}
       initialState = Ok st' /\
     FT0RelGainConst st' = replicate 208 1 /\
     FV0RelGainConst st' = replicate 48 1 /\
     3 / vec_at (FT0RelGainConst st') 207 = 3 /\
     (calFV0 Examples.GetPhi Examples.cfgAll st' 1 (Examples.collision 10 [2; 1])).2
     = (foldl (fun acc s => SumQvectors Examples.GetPhi (helperEP st') 1 s.1 s.2 1 acc)
              (C0, 0) [(0%Z, 2); (1%Z, 1)]).2) /\
  (exists st',
     initCCDB Examples.cfgAll Examples.ccdbGain {| bc_runNumber := 1; timestamp := 0 |}
       initialState = Ok st' /\
     FT0RelGainConst st' = [2; 4] /\ FV0RelGainConst st' = [2; 4]).
Proof.
  split.
  - destruct (C7_gain_equalisation Examples.GetPhi Examples.cfgAll Examples.ccdbBare
                {| bc_runNumber := 1; timestamp := 0 |} initialState
                [{| getX := 0; getY := 0 |}; {| getX := 0; getY := 0 |}]
                [{| getX := 0; getY := 0 |}; {| getX := 0; getY := 0 |}])
      as (st' & E & _ & _ & HFT0 & HFV0 & Hloops); [reflexivity | reflexivity |].
    destruct (HFT0 eq_refl) as (G1 & _ & D1).
    destruct (HFV0 eq_refl) as (G2 & _ & _).
    exists st'. split; [exact E|]. split; [exact G1|]. split; [exact G2|].
    split; [apply D1; lia|].
    destruct (Hloops 1%Z (Examples.collision 10 [2; 1])) as [Hfv0 _].
    destruct (Hfv0 {| channel := [0; 1]%Z; amplitude := [2; 1] |} eq_refl eq_refl)
      as [_ Hraw].
    rewrite Hraw; [reflexivity | reflexivity |].
    repeat (constructor; [lia|]). constructor.
  - destruct (C7_gain_equalisation Examples.GetPhi Examples.cfgAll Examples.ccdbGain
                {| bc_runNumber := 1; timestamp := 0 |} initialState
                [{| getX := 0; getY := 0 |}; {| getX := 0; getY := 0 |}]
                [{| getX := 0; getY := 0 |}; {| getX := 0; getY := 0 |}])
      as (st' & E & G1 & G2 & _); [reflexivity | reflexivity |].
    exists st'. split; [exact E|]. split; [exact G1 | exact G2].
Defined.

(** C9, at an instance: FT0C and FT0M in use, FT0A not; the FT0M sums hold
    the C-side signal only (channel 1 + 96, amplitude 7). *)
Lemma C9_FT0M_sides_witness :
  let f := calFT0 Examples.GetPhi Examples.cfgFT0CM Examples.cache 2 Examples.collisionFT0 in
  (QvecFT0M f, sumAmplFT0M f)
  = foldl (accumulate Examples.GetPhi (helperEP Examples.cache) 0
             (FT0RelGainConst Examples.cache) 2) (C0, 0) [(97%Z, 7)].
Proof.
  destruct (C9_FT0M_sides Examples.GetPhi Examples.cfgFT0CM Examples.cache 2
              Examples.collisionFT0
              {| channelA := [0%Z]; amplitudeA := [5];
                 channelC := [1%Z]; amplitudeC := [7] |})
    as (_ & HA & _ & _); [reflexivity | reflexivity |].
  exact (HA eq_refl).
Defined.

(** C2, at two instances: FT0 found without channels; with FT0A alone in
    use its Q-vector is (0, 0), with FT0C alone in use the Q-vector of FT0A
    is (999, 999). *)
Lemma C2_FT0_sentinels_witness :
  qVectFT0A (calFT0 Examples.GetPhi Examples.cfgFT0A Examples.cache 2
               (Examples.collision 10 [])) = (0, 0) /\
  qVectFT0A (calFT0 Examples.GetPhi Examples.cfgFT0C Examples.cache 2
               (Examples.collision 10 [])) = (999, 999).
Proof.
  split.
  - destruct (C2_FT0_sentinels Examples.GetPhi Examples.cfgFT0A Examples.cache 2
                (Examples.collision 10 [])
                {| channelA := []; amplitudeA := []; channelC := []; amplitudeC := [] |})
      as (H & _); [reflexivity | reflexivity |].
    apply H; [reflexivity|].
    change (sumAmplFT0A (calFT0 Examples.GetPhi Examples.cfgFT0A Examples.cache 2
               (Examples.collision 10 []))) with 0. lra.
  - destruct (C2_FT0_sentinels Examples.GetPhi Examples.cfgFT0C Examples.cache 2
                (Examples.collision 10 [])
                {| channelA := []; amplitudeA := []; channelC := []; amplitudeC := [] |})
      as (_ & H & _); [reflexivity | reflexivity |].
    apply H. reflexivity.
Defined.

(** FV0A for two channels at azimuth 0 and pi, harmonic 1, gains 1. *)
Lemma calFV0_example (a0 a1 : R) :
  a0 + a1 > 1e-8 ->
  calFV0 Examples.GetPhi Examples.cfgAll Examples.cache 1
    (Examples.collision 10 [a0; a1])
  = (((a0 - a1) / (a0 + a1), 0), a0 + a1).
Proof.
  intros HW. unfold calFV0.
  change (foundFV0 (Examples.collision 10 [a0; a1]))
    with (Some {| channel := [0; 1]%Z; amplitude := [a0; a1] |}).
  change (use Examples.cfgAll "QvectorFV0As") with true. cbv iota.
  unfold fv0Step. rewrite accumulate_from_zero.
  change (signals (channel {| channel := [0; 1]%Z; amplitude := [a0; a1] |})
                  (amplitude {| channel := [0; 1]%Z; amplitude := [a0; a1] |}))
    with [(0%Z, a0); (1%Z, a1)].
  cbn [fmap list_fmap corrected fst snd Qsum Wsum Re Im C0].
  change (FV0RelGainConst Examples.cache) with (replicate 48 1).
  rewrite !vec_at_replicate by lia.
  change (Examples.GetPhi (helperEP Examples.cache) 1 0) with 0.
  change (Examples.GetPhi (helperEP Examples.cache) 1 1) with PI.
  rewrite Rmult_0_l, Rmult_1_r, cos_0, sin_0, cos_PI, sin_PI.
  unfold normalise. cbn [fst snd].
  rewrite decide_True by lra.
  unfold pairOf, TComplex_div. cbn [Re Im].
  f_equal; [f_equal|]; field; lra.
Qed.

(** C4 as stated fails: amplitudes 2 and -1 at azimuth 0 and pi give
    [W = 1 > 1e-8] and the Q-vector (3, 0), of magnitude 3. *)
Lemma C4_negative_amplitude :
  let r := calFV0 Examples.GetPhi Examples.cfgAll Examples.cache 1
             (Examples.collision 10 [2; -1]) in
  r.2 > 1e-8 /\ r.1 = (3, 0) /\ ~ magnitude r.1 <= 1.
Proof.
  rewrite calFV0_example by lra. cbn [fst snd].
  split; [lra|]. split; [f_equal; lra|].
  unfold magnitude. cbn [fst snd]. intros H.
  assert (1 < sqrt ((2 - -1) / (2 + -1) * ((2 - -1) / (2 + -1)) + 0 * 0)); [|lra].
  rewrite <- sqrt_1 at 1. apply sqrt_lt_1_alt. lra.
Qed.

(** C4 (amended), at an instance: amplitudes 2 and 1. *)
Lemma C4_channel_accumulators_witness :
  magnitude (calFV0 Examples.GetPhi Examples.cfgAll Examples.cache 1
               (Examples.collision 10 [2; 1])).1 <= 1.
Proof.
  destruct (C4_channel_accumulators Examples.GetPhi Examples.cfgAll Examples.cache 1
              (Examples.collision 10 [2; 1])) as (HFV0 & _).
  destruct (HFV0 {| channel := [0; 1]%Z; amplitude := [2; 1] |} eq_refl eq_refl)
    as (_ & Hgt & _).
  revert Hgt.
  change (signals (channel {| channel := [0; 1]%Z; amplitude := [2; 1] |})
                  (amplitude {| channel := [0; 1]%Z; amplitude := [2; 1] |}))
    with [(0%Z, 2); (1%Z, 1)].
  change (FV0RelGainConst Examples.cache) with (replicate 48 1).
  cbn [fmap list_fmap corrected fst snd Wsum].
  rewrite !vec_at_replicate by lia.
  intros Hgt. destruct Hgt as [_ Hm]; [lra|].
  apply Hm.
  repeat (constructor;
          [unfold corrected; cbn [fst snd]; rewrite vec_at_replicate by lia; lra|]).
  constructor.
Defined.

(** The example track passes [SelTrack] at the default cuts. *)
Lemma SelTrack_example cfgb e :
  SelTrack (Examples.cfgFor cfgb) (Examples.track e) = true.
Proof.
  unfold SelTrack. cbn [pt Examples.track Examples.cfgFor cfgMinPtOnTPC cfgMaxPtOnTPC].
  rewrite (decide_False (P := 1 < 0.15)) by lra.
  rewrite (decide_False (P := 1 > 5)) by lra.
  reflexivity.
Qed.

Lemma subEventOf_example cfgb e :
  0.1 <= e <= 0.8 ->
  subEventOf (Examples.cfgFor cfgb) (Examples.track e)
  = if use (Examples.cfgFor cfgb) "QvectorBPoss" then Some BPos else None.
Proof.
  intros He. unfold subEventOf. rewrite SelTrack_example.
  cbn [negb eta Examples.track]. rewrite (Rabs_pos_eq e) by lra.
  rewrite (bool_decide_eq_false_2 (e < 0.1)) by lra.
  rewrite (bool_decide_eq_false_2 (e > 0.8)) by lra.
  rewrite (bool_decide_eq_true_2 (e > 0)) by lra.
  rewrite (bool_decide_eq_false_2 (e < 0)) by lra.
  cbn [orb andb]. by destruct (use _ _).
Qed.

(** C5 as stated fails: with the positive sub-event not in use, a selected
    track at [eta = 0.5] is in neither sub-event. *)
Lemma C5_sub_event_not_in_use :
  let trk := Examples.track 0.5 in
  let t := calTracks Examples.cfgBNeg 2 [trk] [] [] in
  SelTrack Examples.cfgBNeg trk = true /\
  0.1 <= Rabs (eta trk) <= 0.8 /\
  TrkBPosLabel t = [] /\ TrkBNegLabel t = [] /\
  nTrkBPos t = 0%Z /\ nTrkBNeg t = 0%Z.
Proof.
  intros trk t.
  split; [apply SelTrack_example|].
  split; [subst trk; cbn [eta Examples.track]; rewrite Rabs_pos_eq; lra|].
  subst t. unfold calTracks.
  cbn [TrkBPosLabel TrkBNegLabel nTrkBPos nTrkBNeg].
  match goal with
  | |- context [foldl (trackStep _ 2) ?s0 [trk]] =>
    destruct (trackLoop_labels Examples.cfgBNeg 2 [trk] s0) as (-> & -> & -> & ->)
  end.
  rewrite !filter_cons, !filter_nil.
  subst trk. unfold Examples.cfgBNeg. rewrite subEventOf_example by lra.
  change (use (Examples.cfgFor ["QvectorBNegs"]) "QvectorBPoss") with false.
  cbn. done.
Qed.

(** C5 (amended), at an instance: all sub-systems in use, [eta = 0.5]. *)
Lemma C5_track_partition_witness :
  TrkBPosLabel (calTracks Examples.cfgAll 2 [Examples.track 0.5] [] []) = [7%Z].
Proof.
  destruct (C5_track_partition Examples.cfgAll 2 [Examples.track 0.5] [] [])
    as ((-> & _) & Hall).
  destruct (Hall (Examples.track 0.5)) as (Hin & _).
  destruct Hin as [[_ Hp] | [Hneg _]].
  - apply SelTrack_example.
  - cbn [eta Examples.track]. rewrite Rabs_pos_eq; lra.
  - rewrite filter_cons, filter_nil, Hp.
    change (use Examples.cfgAll "QvectorBPoss") with true. reflexivity.
  - cbn [eta Examples.track] in Hneg. lra.
Defined.

(** ** Properties across configurations, and further instances *)

(** *** The loop over harmonics and the rows *)

(** X10: the loop over the configured harmonics leaves no trace in what an
    event writes: an event is processed as if no harmonic were configured,
    once the loop has gone through; the loop contributes its errors only. *)
Theorem X10_harmonics_leave_no_trace GetPhi DoTwist cfg st coll tracks :
  processEvent GetPhi DoTwist cfg st coll tracks
  = let* _ := harmonics GetPhi DoTwist cfg st coll tracks (centrality cfg coll).1 in
    processEvent GetPhi DoTwist (withMods cfg []) st coll tracks.
Proof.
  unfold processEvent.
  change (centrality (withMods cfg []) coll) with (centrality cfg coll).
  destruct (centrality cfg coll) as [cent flag]. cbn [fst].
  destruct (harmonics GetPhi DoTwist cfg st coll tracks cent) as [vl|e]; cbn [rbind]; [|done].
  change (harmonics GetPhi DoTwist (withMods cfg []) st coll tracks cent)
    with (Ok noVecLocals).
  cbn [rbind]. reflexivity.
Qed.

(** *** [init] *)

Lemma useDetector0_lookup name :
  useDetector0 !! name = if decide (name ∈ subsystemNames) then Some false else None.
Proof.
  unfold useDetector0, subsystemNames. cbn [list_to_map foldr fst snd].
  repeat (rewrite lookup_insert; destruct (decide (_ = name)) as [<-|?];
          [reflexivity|]).
  rewrite lookup_empty. rewrite decide_False; [done|].
  rewrite !elem_of_cons, elem_of_nil. intros H.
  repeat (destruct H as [H|H]; [by subst|]). done.
Qed.

Lemma init_step (m : gmap string bool) binding name :
  map_imap (fun det v =>
     Some (if decide (binding = det \/ binding = det +:+ "_vec") then true else v)) m
    !! name
  = (fun v => if decide (binding = name \/ binding = name +:+ "_vec") then true else v)
      <$> m !! name.
Proof. rewrite map_lookup_imap. by destruct (m !! name). Qed.

Lemma init_fold bindings : forall (m : gmap string bool) name,
  foldl (fun m binding =>
           map_imap (fun det v =>
             Some (if decide (binding = det \/ binding = det +:+ "_vec")
                   then true else v)) m) m bindings !! name
  = (fun v => if decide (Exists (fun b => b = name \/ b = name +:+ "_vec") bindings)
              then true else v) <$> m !! name.
Proof.
  induction bindings as [|b bindings IH]; intros m name; cbn [foldl].
  { destruct (m !! name) as [v|]; [|done].
    change (Some v = Some (if decide (Exists (fun b => b = name \/ b = name +:+ "_vec") [])
                           then true else v)).
    by rewrite decide_False by (intros H; by apply Exists_nil in H). }
  rewrite IH, init_step. destruct (m !! name) as [v|]; [|done].
  change (Some (if decide (Exists (fun b => b = name \/ b = name +:+ "_vec") bindings)
                then true
                else if decide (b = name \/ b = name +:+ "_vec") then true else v)
          = Some (if decide (Exists (fun b => b = name \/ b = name +:+ "_vec")
                               (b :: bindings))
                  then true else v)).
  f_equal.
  destruct (decide (b = name \/ b = name +:+ "_vec")) as [Hb|Hb].
  - rewrite (decide_True (P := Exists _ (b :: bindings))) by (by apply Exists_cons_hd).
    by destruct (decide (Exists _ bindings)).
  - destruct (decide (Exists (fun b => b = name \/ b = name +:+ "_vec") bindings)) as [He|He].
    + by rewrite decide_True by (by apply Exists_cons_tl).
    + rewrite decide_False; [done|]. rewrite Exists_cons. tauto.
Qed.

(** X11: [init] never adds nor removes a key of [useDetector]: the keys are
    the six sub-system names whatever the inputs; and a sub-system is in use
    exactly when it is one of the six and some input binds the table of that
    name or the one with the suffix [_vec]. *)
Theorem X11_init_in_use bindings name :
  (is_Some (init bindings !! name) <-> name ∈ subsystemNames) /\
  (init bindings !! name = Some true
   <-> name ∈ subsystemNames
       /\ exists b, b ∈ bindings /\ (b = name \/ b = name +:+ "_vec")).
Proof.
  unfold init. rewrite init_fold, useDetector0_lookup.
  destruct (decide (name ∈ subsystemNames)) as [Hin|Hin].
  - change ((fun v => if decide (Exists (fun b => b = name \/ b = name +:+ "_vec") bindings)
                      then true else v) <$> Some false)
      with (Some (if decide (Exists (fun b => b = name \/ b = name +:+ "_vec") bindings)
                  then true else false)).
    split; [split; [done | by eauto]|].
    destruct (decide (Exists (fun b => b = name \/ b = name +:+ "_vec") bindings))
      as [He|He].
    + split; [|done]. intros _. split; [done|]. by apply Exists_exists in He.
    + split; [done|]. intros [_ Hb]. destruct He. by apply Exists_exists.
  - split; [split; [by intros [? [=]] | done]|].
    split; [done | by intros [? _]].
Qed.

(** X1, at an instance: one track of momentum 1 in the positive sub-event;
    the magnitude of the Q-vector is at most the upper cut, 5. *)
Lemma X1_track_mean_witness :
  nTrkBPos (calTracks Examples.cfgAll 2 [Examples.track 0.5] [] []) = 1%Z /\
  magnitude (qVectBPos (calTracks Examples.cfgAll 2 [Examples.track 0.5] [] [])) <= 5.
Proof.
  assert (Hm : members Examples.cfgAll BPos [Examples.track 0.5] = [Examples.track 0.5]).
  { unfold members. rewrite filter_cons, filter_nil.
    unfold Examples.cfgAll. rewrite subEventOf_example by lra. reflexivity. }
  destruct (X1_track_mean Examples.cfgAll 2 [Examples.track 0.5] [] [])
    as (Np & _ & Hp & _).
  - cbn [cfgMinPtOnTPC Examples.cfgAll Examples.cfgFor]. lra.
  - rewrite Hm in Np, Hp. split; [exact Np|].
    destruct Hp as [_ Hle]; [done|]. exact Hle.
Defined.

(** X2, at an instance: two harmonics configured, both histograms loaded,
    centrality 10. *)
Lemma X2_harmonic_vectors_witness :
  exists vl,
    harmonics Examples.GetPhi Examples.DoTwist Examples.cfgAll Examples.cache
      (Examples.collision 10 []) [] 10 = Ok vl /\
    length (QvecRe (arrays_vec vl)) = 48%nat /\
    length (qvecFT0C_vec vl) = 2%nat.
Proof.
  destruct (X2_harmonic_vectors Examples.GetPhi Examples.DoTwist Examples.cfgAll
              Examples.cache (Examples.collision 10 []) [] 10)
    as (vl & E & Lre & _ & _ & V).
  - intros _ n Hn. destruct n as [|[|n]]; simpl in Hn; [by eexists .. | lia].
  - exists vl. split; [exact E|]. split; [exact Lre|].
    change (qvecFT0C_vec vl) with (perSubsystem vl !!! 0%nat).
    rewrite (V 0%nat) by lia. reflexivity.
Defined.

(** X3, at an instance: two harmonics configured and one track in the
    positive sub-event; its label is held twice after the loop. *)
Lemma X3_labels_per_harmonic_witness :
  exists vl,
    harmonics Examples.GetPhi Examples.DoTwist Examples.cfgAll Examples.cache
      (Examples.collision 10 []) [Examples.track 0.5] 10 = Ok vl /\
    BPosLabels (arrays_vec vl) = [7; 7]%Z.
Proof.
  assert (Hm : members Examples.cfgAll BPos [Examples.track 0.5] = [Examples.track 0.5]).
  { unfold members. rewrite filter_cons, filter_nil.
    unfold Examples.cfgAll. rewrite subEventOf_example by lra. reflexivity. }
  destruct (X3_labels_per_harmonic Examples.GetPhi Examples.DoTwist Examples.cfgAll
              Examples.cache (Examples.collision 10 []) [Examples.track 0.5] 10)
    as (vl & E & Lp & _).
  - intros _ n Hn. destruct n as [|[|n]]; simpl in Hn; [by eexists .. | lia].
  - exists vl. split; [exact E|]. rewrite Lp, Hm. reflexivity.
Defined.

(** X4, at an instance: centrality 90, no histogram loaded. *)
Lemma X4_uncalibrated_event_witness :
  exists out,
    processEvent Examples.GetPhi Examples.DoTwist Examples.cfgAll Examples.cacheBare
      (Examples.collision 90 []) [] = Ok out /\
    out_cent out = 110 /\ out_IsCalibrated out = false.
Proof.
  destruct (X4_uncalibrated_event Examples.GetPhi Examples.DoTwist Examples.cfgAll
              Examples.cacheBare (Examples.collision 90 []) [])
    as (out & E & Hc & Hf & _).
  - right. change (centEstim Examples.cfgAll (Examples.collision 90 [])) with 90. lra.
  - exists out. split; [exact E|]. split; [exact Hc | exact Hf].
Defined.

(** X5, at an instance: an event without tracks at centrality 10; the
    group of the positive sub-event starts with the sentinel. *)
Lemma X5_sentinels_are_corrected_witness :
  exists out,
    processEvent Examples.GetPhi Examples.DoTwist Examples.cfgAll Examples.cache
      (Examples.collision 10 []) [] = Ok out /\
    pick (out_qvecRe out, out_qvecIm out) 16 = (999, 999) /\
    pick (out_qvecRe out, out_qvecIm out) 19
    = rescaled Examples.DoTwist (Examples.hist 2) 10 4 (999, 999).
Proof.
  destruct (X5_sentinels_are_corrected Examples.GetPhi Examples.DoTwist Examples.cfgAll
              Examples.cache (Examples.collision 10 []) [] (Examples.hist 2))
    as (out & E & _ & _ & _ & Hp & _).
  - change (centEstim Examples.cfgAll (Examples.collision 10 [])) with 10. lra.
  - reflexivity.
  - intros n Hn. destruct n as [|[|n]]; simpl in Hn; [by eexists .. | lia].
  - destruct (Hp eq_refl) as [Hk _].
    exists out. split; [exact E|]. split.
    + exact (Hk 0%nat ltac:(lia)).
    + exact (Hk 3%nat ltac:(lia)).
Defined.

(** X6, at an instance: no harmonic configured, centrality 10. *)
Lemma X6_out_of_range_witness :
  processEvent Examples.GetPhi Examples.DoTwist Examples.cfgNoMods initialState
    (Examples.collision 10 []) [] = Err OutOfRange.
Proof.
  destruct (X6_out_of_range Examples.GetPhi Examples.DoTwist Examples.cfgNoMods
              initialState (Examples.collision 10 []) []) as [[_ H] _].
  - reflexivity.
  - apply H. split; [reflexivity|].
    change (centEstim Examples.cfgNoMods (Examples.collision 10 [])) with 10. lra.
Defined.

(** X7, at an instance: the first event of run 1 on a fresh task, then a
    second event of run 1 with a database that has lost everything. *)
Lemma X7_run_cache_witness :
  refresh Examples.cfgAll Examples.ccdbBare initialState (Examples.collision 10 [])
    = Ok Examples.cacheBare /\
  process Examples.GetPhi Examples.DoTwist Examples.cfgAll
    {| getAlign := fun _ _ => None; getTH3F := fun _ _ => None;
       getGain := fun _ _ => None |}
    Examples.cacheBare (Examples.collision 90 []) []
  = let* out := processEvent Examples.GetPhi Examples.DoTwist Examples.cfgAll
                  Examples.cacheBare (Examples.collision 90 []) [] in
    Ok (Examples.cacheBare, out).
Proof.
  assert (E : refresh Examples.cfgAll Examples.ccdbBare initialState
                (Examples.collision 10 []) = Ok Examples.cacheBare) by reflexivity.
  split; [exact E|].
  destruct (X7_run_cache Examples.GetPhi Examples.DoTwist Examples.cfgAll
              Examples.ccdbBare initialState (Examples.collision 10 [])
              Examples.cacheBare E) as (_ & _ & _ & H).
  apply H. reflexivity.
Defined.

(** X9, at an instance: harmonic 3 configured before harmonic 2; the
    harmonic-2 Q-vectors written out are corrected with the histogram of
    harmonic 3. *)
Lemma X9_first_configured_harmonic_witness :
  exists st' out,
    process Examples.GetPhi Examples.DoTwist Examples.cfg32 Examples.ccdbFull
      initialState (Examples.collision 10 []) [] = Ok (st', out) /\
    pick (out_qvecRe out, out_qvecIm out) 3
    = rescaled Examples.DoTwist (Examples.hist 3) 10 0
        (rawQ Examples.GetPhi Examples.cfg32 st' 2 (Examples.collision 10 []) [] !!! 0%nat).
Proof.
  destruct (X9_first_configured_harmonic Examples.GetPhi Examples.DoTwist Examples.cfg32
              Examples.ccdbFull initialState (Examples.collision 10 []) []
              3%Z [2%Z] (Examples.hist 3))
    as (st' & out & E & _ & _ & P).
  - cbn. lia.
  - by eexists.
  - by eexists.
  - reflexivity.
  - reflexivity.
  - intros ind Hind. apply list_elem_of_singleton in Hind as ->. by eexists.
  - change (centEstim Examples.cfg32 (Examples.collision 10 [])) with 10. lra.
  - exists st', out. split; [exact E|].
    exact (P 0%nat 3%nat ltac:(lia) ltac:(lia)).
Defined.

(** *** FT0M without its two sides *)


Lemma init_in_use bindings name :
  init bindings !! name = Some true ->
  exists b, b ∈ bindings /\ (b = name \/ b = name +:+ "_vec").
Proof.
  unfold init. rewrite init_fold, useDetector0_lookup.
  destruct (decide (name ∈ subsystemNames)); [|done].
  change ((fun v => if decide (Exists (fun b => b = name \/ b = name +:+ "_vec") bindings)
                    then true else v) <$> Some false)
    with (Some (if decide (Exists (fun b => b = name \/ b = name +:+ "_vec") bindings)
                then true else false)).
  destruct (decide (Exists (fun b => b = name \/ b = name +:+ "_vec") bindings))
    as [He|He]; [|done].
  intros _. by apply Exists_exists in He.
Qed.

(** X12: a workflow whose inputs bind neither the FT0A nor the FT0C table
    (plain or [_vec]) never gets an FT0M Q-vector: the FT0M sums are fed
    inside the loops of the two sides only, so the amplitude sum is 0 and
    the Q-vector is the sentinel (999, 999) when the FT0M table is bound
    and the collision has an FT0 row, and (-999, -999) otherwise. *)
Theorem X12_FT0M_alone GetPhi cfg bindings st nmode coll :
  useDetector cfg = init bindings ->
  (forall b, b ∈ bindings ->
     b <> "QvectorFT0As" /\ b <> "QvectorFT0As_vec" /\
     b <> "QvectorFT0Cs" /\ b <> "QvectorFT0Cs_vec") ->
  let f := calFT0 GetPhi cfg st nmode coll in
  sumAmplFT0M f = 0 /\
  qVectFT0M f
  = if use cfg "QvectorFT0Ms" && bool_decide (is_Some (foundFT0 coll))
    then (999, 999) else (-999, -999).
Proof.
  intros Hinit Hb f.
  assert (HA : use cfg "QvectorFT0As" = false).
  { unfold use. rewrite Hinit.
    destruct (init bindings !! "QvectorFT0As") as [[|]|] eqn:E; [|done..].
    destruct (init_in_use _ _ E) as (b & Hin & Hcase).
    destruct (Hb b Hin) as (? & ? & _). by destruct Hcase. }
  assert (HC : use cfg "QvectorFT0Cs" = false).
  { unfold use. rewrite Hinit.
    destruct (init bindings !! "QvectorFT0Cs") as [[|]|] eqn:E; [|done..].
    destruct (init_in_use _ _ E) as (b & Hin & Hcase).
    destruct (Hb b Hin) as (_ & _ & ? & ?). by destruct Hcase. }
  subst f. unfold calFT0. rewrite HA, HC. cbn [orb].
  destruct (foundFT0 coll) as [ft0|].
  - rewrite (bool_decide_eq_true_2 (is_Some (Some ft0))) by (by eexists).
    destruct (use cfg "QvectorFT0Ms"); cbn [andb sumAmplFT0M qVectFT0M snd fst]; [|done].
    split; [done|]. by rewrite bool_decide_eq_false_2 by lra.
  - rewrite (bool_decide_eq_false_2 (is_Some None)) by (by intros [? [=]]).
    rewrite andb_false_r. done.
Qed.

(** X12, at an instance: only the FT0M table is bound; the collision has
    FT0 signals on both sides. *)
Lemma X12_FT0M_alone_witness :
  qVectFT0M (calFT0 Examples.GetPhi (Examples.cfgFor ["QvectorFT0Ms"]) Examples.cache 2
               Examples.collisionFT0) = (999, 999).
Proof.
  destruct (X12_FT0M_alone Examples.GetPhi (Examples.cfgFor ["QvectorFT0Ms"])
              ["QvectorFT0Ms"] Examples.cache 2 Examples.collisionFT0) as [_ H].
  - reflexivity.
  - intros b Hin. apply list_elem_of_singleton in Hin as ->. done.
  - exact H.
Defined.

End QVectorsTable.

(** * Properties of the weights loader *)

Section WeightsLoader.

Import JflucWeightsLoader.

Lemma append_rows {A B} (f : A -> B) (l : list A) (out : list B) :
  foldl (fun out x => out ++ [f x]) out l = out ++ (f <$> l).
Proof.
  revert out. induction l as [|x l IH]; intros out; simpl.
  - by rewrite app_nil_r.
  - by rewrite IH, <- app_assoc.
Qed.

Lemma reload_ok cfg ccdb st collision :
  is_Some (pf st) \/ useCCDB st = true ->
  exists st', reload cfg ccdb st collision = Ok st'.
Proof.
  intros Hopen. unfold reload.
  destruct (useCCDB st) eqn:Hu.
  - rewrite andb_false_r. destruct (decide _); by eexists.
  - destruct Hopen as [[f Hf]|]; [|done].
    rewrite Hf. rewrite bool_decide_eq_true_2 by by eexists. simpl.
    destruct (decide _); by eexists.
Qed.

(** C10: when the task has an open file or uses the database, [loadWeights]
    goes through and appends to the table exactly one row per track, in the
    order of the tracks; the efficiency weight of every row is 1, and so is
    the phi weight when no histogram is loaded. *)
Theorem C10_one_row_per_track cfg ccdb st outputT collision tracks :
  is_Some (pf st) \/ useCCDB st = true ->
  exists st' rows,
    loadWeights cfg ccdb st outputT collision tracks = Ok (st', outputT ++ rows) /\
    rows = weightRow (ph st') collision <$> tracks /\
    length rows = length tracks /\
    forall i track, tracks !! i = Some track ->
      exists phiWeight,
        rows !! i = Some (phiWeight, 1) /\
        (ph st' = None -> phiWeight = 1).
Proof.
  intros Hopen. destruct (reload_ok cfg ccdb st collision Hopen) as [st' Hst'].
  exists st', (weightRow (ph st') collision <$> tracks).
  unfold loadWeights. rewrite Hst'. simpl. rewrite append_rows.
  split; [done|]. split; [done|]. split; [by rewrite length_fmap|].
  intros i track Hi. rewrite list_lookup_fmap, Hi. simpl.
  unfold weightRow. eexists. split; [reflexivity|].
  by intros ->.
Qed.

(** C10, at an instance: a local file without histogram, two tracks. *)
Lemma C10_one_row_per_track_witness :
  exists st',
    loadWeights Examples.cfg Examples.ccdbEmpty Examples.localEmpty []
      Examples.collision Examples.tracks
    = Ok (st', [(1, 1); (1, 1)]).
Proof.
  destruct (C10_one_row_per_track Examples.cfg Examples.ccdbEmpty Examples.localEmpty
              [] Examples.collision Examples.tracks)
    as (st' & rows & E & Hrows & _ & _).
  - left. by eexists.
  - exists st'. rewrite E. f_equal. f_equal.
    rewrite Hrows.
    assert (Hph : ph st' = None).
    { revert E. unfold loadWeights, reload. simpl. by intros [= <- _]. }
    by rewrite Hph.
Defined.

(** *** [init] *)

(** The four ways [init] returns without a fatal error. *)
Lemma init_Ok path p1 p2 opener st :
  init path p1 p2 opener = Ok st ->
  (p1 = false /\ p2 = false /\ st = initialState) \/
  (xorb p1 p2 = true /\
   ((contains "ccdb" path = true /\
     st = {| ph := None; pf := None; runNumber := 0; timestamp := 0; useCCDB := true |})
    \/ (contains "ccdb" path = false /\ String.substring 0 8 path = "local://" /\
        exists f, opener (substr8 path) = Some f /\
          st = {| ph := None; pf := Some f; runNumber := 0; timestamp := 0;
                  useCCDB := false |})
    \/ (contains "ccdb" path = false /\ String.substring 0 8 path <> "local://" /\
        st = initialState))).
Proof.
  unfold init. destruct p1, p2; cbn [negb andb xorb]; try done.
  - destruct (contains "ccdb" path); [intros [= <-]; right; auto|].
    destruct (String.eqb_spec (String.substring 0 8 path) "local://") as [Hl|Hl].
    + destruct (opener (substr8 path)) as [f|]; [|done].
      intros [= <-]. right. split; [done|]. right. left. eauto.
    + intros [= <-]. right. split; [done|]. right. right. auto.
  - destruct (contains "ccdb" path); [intros [= <-]; right; auto|].
    destruct (String.eqb_spec (String.substring 0 8 path) "local://") as [Hl|Hl].
    + destruct (opener (substr8 path)) as [f|]; [|done].
      intros [= <-]. right. split; [done|]. right. left. eauto.
    + intros [= <-]. right. split; [done|]. right. right. auto.
  - intros [= <-]. left. auto.
Qed.

(** X13: when [init] returns, no histogram is loaded and the run number and
    the timestamp are 0; the database is used exactly when one of the two
    switches is on and the path contains [ccdb] anywhere, a file is held
    exactly when one switch is on, the path does not contain [ccdb], starts
    with [local://] and the file named by the rest of the path could be
    opened; and for a path that contains [ccdb] no file is opened, even when
    the path starts with [local://]: the result is the same whatever the
    file system holds. *)
Theorem X13_weights_source path p1 p2 opener st :
  init path p1 p2 opener = Ok st ->
  ph st = None /\ runNumber st = 0%Z /\ timestamp st = 0%Z /\
  (useCCDB st = true <-> xorb p1 p2 = true /\ contains "ccdb" path = true) /\
  (forall f, pf st = Some f
     <-> xorb p1 p2 = true /\ contains "ccdb" path = false
         /\ String.substring 0 8 path = "local://" /\ opener (substr8 path) = Some f) /\
  (contains "ccdb" path = true -> forall opener', init path p1 p2 opener' = Ok st).
Proof.
  intros E.
  assert (Hind : contains "ccdb" path = true ->
                 forall opener', init path p1 p2 opener' = Ok st).
  { intros Hc opener'. revert E. unfold init.
    destruct (negb p1 && negb p2); [done|]. destruct (p1 && p2); [done|].
    by rewrite Hc. }
  destruct (init_Ok _ _ _ _ _ E)
    as [(-> & -> & ->) | (Hx & [(Hc & ->) | [(Hc & Hl & f & Hf & ->) | (Hc & Hl & ->)]])];
    cbn [ph pf runNumber timestamp useCCDB initialState];
    (split; [done|]); (split; [done|]); (split; [done|]); (split; [|split; [|done]]).
  - split; [done | by intros [? _]].
  - intros f. split; [done | by intros [? _]].
  - done.
  - intros f. split; [done|]. intros (_ & Hc' & _). congruence.
  - split; [done|]. intros [_ Hc']. congruence.
  - intros f'. split.
    + intros [= <-]. done.
    + intros (_ & _ & _ & Hf'). congruence.
  - split; [done|]. intros [_ Hc']. congruence.
  - intros f. split; [done|]. intros (_ & _ & Hl' & _). done.
Qed.

(** *** [loadWeights] after [init] *)

Lemma loadWeights_error cfg ccdb st outputT collision tracks e :
  loadWeights cfg ccdb st outputT collision tracks = Err e ->
  pf st = None /\ useCCDB st = false /\
  e = Fatal "NUA correction weights file has not been opened.".
Proof.
  unfold loadWeights, reload.
  destruct (pf st) as [f|], (useCCDB st); cbn [negb andb rbind];
    rewrite ?bool_decide_eq_true_2 by (by eexists);
    rewrite ?bool_decide_eq_false_2 by (by intros [? [=]]);
    cbn [negb andb rbind];
    try (destruct (decide _); cbn [rbind]; done).
  by intros [= <-].
Qed.

Lemma loadWeights_ok cfg ccdb st outputT collision tracks :
  is_Some (pf st) \/ useCCDB st = true ->
  exists st',
    reload cfg ccdb st collision = Ok st' /\
    loadWeights cfg ccdb st outputT collision tracks
    = Ok (st', outputT ++ (weightRow (ph st') collision <$> tracks)).
Proof.
  intros Hopen. destruct (reload_ok cfg ccdb st collision Hopen) as [st' Hst'].
  exists st'. split; [done|]. unfold loadWeights. rewrite Hst'. cbn [rbind].
  by rewrite append_rows.
Qed.

(** X14: after [init] returned, the only way [loadWeights] fails is the
    fatal error on the unopened file, and it does so on every call exactly
    when neither of the two switches [init] reads is on (the 2-prong switch
    is not among them) or the path neither contains [ccdb] nor starts with
    [local://]; in every other case every call goes through. *)
Theorem X14_unconfigured_task path p1 p2 opener st cfg ccdb outputT collision tracks :
  init path p1 p2 opener = Ok st ->
  (loadWeights cfg ccdb st outputT collision tracks
   = Err (Fatal "NUA correction weights file has not been opened.")
   <-> (p1 = false /\ p2 = false)
       \/ (contains "ccdb" path = false /\ String.substring 0 8 path <> "local://")) /\
  (forall e, loadWeights cfg ccdb st outputT collision tracks = Err e ->
     e = Fatal "NUA correction weights file has not been opened.") /\
  ((xorb p1 p2 = true /\
    (contains "ccdb" path = true \/ String.substring 0 8 path = "local://")) ->
   exists st' rows,
     loadWeights cfg ccdb st outputT collision tracks = Ok (st', outputT ++ rows) /\
     length rows = length tracks).
Proof.
  intros E.
  assert (Hfatal : pf st = None -> useCCDB st = false ->
            loadWeights cfg ccdb st outputT collision tracks
            = Err (Fatal "NUA correction weights file has not been opened.")).
  { intros Hp Hu. unfold loadWeights, reload. rewrite Hp, Hu.
    by rewrite bool_decide_eq_false_2 by (by intros [? [=]]). }
  assert (Hgo : is_Some (pf st) \/ useCCDB st = true ->
            exists st' rows,
              loadWeights cfg ccdb st outputT collision tracks = Ok (st', outputT ++ rows) /\
              length rows = length tracks).
  { intros Hopen.
    destruct (loadWeights_ok cfg ccdb st outputT collision tracks Hopen) as (st' & _ & ->).
    eexists _, _. split; [reflexivity|]. by rewrite length_fmap. }
  split; [|split].
  - destruct (init_Ok _ _ _ _ _ E)
      as [(-> & -> & ->) | (Hx & [(Hc & ->) | [(Hc & Hl & f & Hf & ->) | (Hc & Hl & ->)]])].
    + split; [by left | intros _; by apply Hfatal].
    + split.
      * intros H. destruct Hgo as (? & ? & Hok & _); [by right | congruence].
      * intros [[-> ->] | [Hc' _]]; [done | congruence].
    + split.
      * intros H. destruct Hgo as (? & ? & Hok & _); [left; by eexists | congruence].
      * intros [[-> ->] | [_ Hl']]; done.
    + split; [by right | intros _; by apply Hfatal].
  - intros e He. by destruct (loadWeights_error _ _ _ _ _ _ _ He) as (_ & _ & ->).
  - intros [Hx Hcase]. apply Hgo.
    destruct (init_Ok _ _ _ _ _ E)
      as [(-> & -> & ->) | (_ & [(Hc & ->) | [(Hc & Hl & f & Hf & ->) | (Hc & Hl & ->)]])].
    + done.
    + by right.
    + left. by eexists.
    + destruct Hcase; congruence.
Qed.

(** *** The cache of a run *)

Lemma reload_frame cfg ccdb st collision st' :
  reload cfg ccdb st collision = Ok st' ->
  runNumber st' = coll_runNumber collision /\ pf st' = pf st /\
  useCCDB st' = useCCDB st /\ timestamp st' = timestamp st /\
  (is_Some (pf st) \/ useCCDB st = true) /\
  (coll_runNumber collision = runNumber st -> st' = st) /\
  (coll_runNumber collision <> runNumber st ->
     ph st' = if useCCDB st
              then initCCDB cfg ccdb (coll_runNumber collision) (timestamp st)
              else pf st ≫= fun f => Get f ("NUAWeights_" +:+ pretty (coll_runNumber collision))).
Proof.
  unfold reload.
  destruct (negb (bool_decide (is_Some (pf st))) && negb (useCCDB st)) eqn:Hb; [done|].
  assert (Hopen : is_Some (pf st) \/ useCCDB st = true).
  { destruct (useCCDB st); [by right|]. left.
    rewrite andb_true_r in Hb. apply negb_false_iff in Hb.
    by apply bool_decide_eq_true in Hb. }
  destruct (decide (coll_runNumber collision = runNumber st)) as [Heq|Hne].
  { intros [= <-]. repeat split; try done. }
  destruct (useCCDB st) eqn:Hu.
  - intros [= <-]. cbn. repeat split; try done.
  - destruct (pf st) as [f|] eqn:Hf; [|done].
    intros [= <-]. cbn. repeat split; try done.
Qed.

(** X15: the histogram is cached by run number alone.  A call that goes
    through leaves the file, the database switch and the timestamp as they
    were and the run number at the collision's; it changes nothing when the
    run number was already the collision's (so a first collision of run 0
    loads nothing); and every later call for the same run keeps the state
    and takes its weights from the histogram already held, whatever the
    configuration and the database are by then. *)
Theorem X15_weights_run_cache cfg ccdb st outputT collision tracks st' out' :
  loadWeights cfg ccdb st outputT collision tracks = Ok (st', out') ->
  runNumber st' = coll_runNumber collision /\
  pf st' = pf st /\ useCCDB st' = useCCDB st /\ timestamp st' = timestamp st /\
  (coll_runNumber collision = runNumber st -> st' = st) /\
  (forall cfg' ccdb' out2 c2 tracks2,
     coll_runNumber c2 = coll_runNumber collision ->
     loadWeights cfg' ccdb' st' out2 c2 tracks2
     = Ok (st', out2 ++ (weightRow (ph st') c2 <$> tracks2))).
Proof.
  unfold loadWeights at 1.
  destruct (reload cfg ccdb st collision) as [st1|] eqn:E; cbn [rbind]; [|done].
  intros [= <- _].
  destruct (reload_frame _ _ _ _ _ E) as (Hrun & Hpf & Hu & Hts & Hopen & Hsame & _).
  split; [done|]. split; [done|]. split; [done|]. split; [done|]. split; [done|].
  intros cfg' ccdb' out2 c2 tracks2 H2.
  destruct (loadWeights_ok cfg' ccdb' st1 out2 c2 tracks2) as (st2 & E2 & ->).
  { by rewrite Hpf, Hu. }
  destruct (reload_frame _ _ _ _ _ E2) as (_ & _ & _ & _ & _ & Hsame2 & _).
  rewrite (Hsame2 ltac:(congruence)). done.
Qed.

(** X16: the member [timestamp] is never assigned.  On a task that [init]
    set up for the database, the first collision of a run other than 0 loads
    the histogram by run number when [cfgForRunNumber] is set, and otherwise
    at timestamp 0, whatever the collision; and the timestamp is still 0
    afterwards. *)
Theorem X16_lookup_at_timestamp_0 path p1 p2 opener st cfg ccdb outputT collision tracks :
  init path p1 p2 opener = Ok st ->
  useCCDB st = true ->
  coll_runNumber collision <> 0%Z ->
  exists st',
    loadWeights cfg ccdb st outputT collision tracks
    = Ok (st', outputT ++ (weightRow (ph st') collision <$> tracks)) /\
    timestamp st' = 0%Z /\
    ph st' = if cfgForRunNumber cfg
             then getForRun ccdb (cfgCCDBPath cfg) (coll_runNumber collision)
             else getForTimeStamp ccdb (cfgCCDBPath cfg) 0.
Proof.
  intros E Hu Hrun.
  destruct (init_Ok _ _ _ _ _ E)
    as [(-> & -> & ->) | (Hx & [(Hc & ->) | [(Hc & Hl & f & Hf & ->) | (Hc & Hl & ->)]])];
    try done.
  destruct (loadWeights_ok cfg ccdb
              {| ph := None; pf := None; runNumber := 0; timestamp := 0; useCCDB := true |}
              outputT collision tracks) as (st' & E' & ->); [by right|].
  destruct (reload_frame _ _ _ _ _ E') as (_ & _ & _ & Hts & _ & _ & Hph).
  exists st'. split; [done|]. split; [done|].
  rewrite Hph by done. done.
Qed.

(** X13, at an instance: a path that starts with [local://] and contains
    [ccdb]: the database is used and no file is held. *)
Lemma X13_weights_source_witness :
  exists st,
    init "local://ccdb/weights.root" true false Examples.openFile = Ok st /\
    useCCDB st = true /\ pf st = None.
Proof.
  assert (E : init "local://ccdb/weights.root" true false Examples.openFile
              = Ok {| ph := None; pf := None; runNumber := 0; timestamp := 0;
                      useCCDB := true |}) by reflexivity.
  destruct (X13_weights_source _ _ _ _ _ E) as (_ & _ & _ & Hu & _).
  eexists. split; [exact E|]. split; [|reflexivity].
  apply Hu. split; reflexivity.
Defined.

(** X14, at an instance: only the 2-prong process function enabled. *)
Lemma X14_unconfigured_task_witness :
  loadWeights Examples.cfg Examples.ccdbEmpty initialState []
    Examples.collision Examples.tracks
  = Err (Fatal "NUA correction weights file has not been opened.").
Proof.
  assert (E : init "http://alice-ccdb.cern.ch" false false Examples.openFile
              = Ok initialState) by reflexivity.
  destruct (X14_unconfigured_task _ _ _ _ _ Examples.cfg Examples.ccdbEmpty []
              Examples.collision Examples.tracks E) as [[_ H] _].
  apply H. by left.
Defined.

(** X15, at an instance: a local file without histogram, then a second
    collision of the same run. *)
Lemma X15_weights_run_cache_witness :
  exists st' out',
    loadWeights Examples.cfg Examples.ccdbEmpty Examples.localEmpty []
      Examples.collision Examples.tracks = Ok (st', out') /\
    runNumber st' = 544122%Z /\
    loadWeights Examples.cfg Examples.ccdbEmpty st' out' Examples.collision []
    = Ok (st', out').
Proof.
  destruct (loadWeights_ok Examples.cfg Examples.ccdbEmpty Examples.localEmpty []
              Examples.collision Examples.tracks) as (st' & _ & E).
  { left. by eexists. }
  destruct (X15_weights_run_cache _ _ _ _ _ _ _ _ E) as (Hrun & _ & _ & _ & _ & Hnext).
  eexists st', _. split; [exact E|]. split; [exact Hrun|].
  rewrite (Hnext Examples.cfg Examples.ccdbEmpty _ Examples.collision [] eq_refl).
  by rewrite app_nil_r.
Defined.

(** X16, at an instance: the default path, lookups by timestamp. *)
Lemma X16_lookup_at_timestamp_0_witness :
  exists st',
    loadWeights Examples.cfg Examples.ccdbEmpty
      {| ph := None; pf := None; runNumber := 0; timestamp := 0; useCCDB := true |}
      [] Examples.collision []
    = Ok (st', []) /\
    timestamp st' = 0%Z.
Proof.
  assert (E : init "http://alice-ccdb.cern.ch" true false Examples.openFile
              = Ok {| ph := None; pf := None; runNumber := 0; timestamp := 0;
                      useCCDB := true |}) by reflexivity.
  destruct (X16_lookup_at_timestamp_0 _ _ _ _ _ Examples.cfg Examples.ccdbEmpty []
              Examples.collision [] E) as (st' & E' & Hts & _).
  - reflexivity.
  - cbn. lia.
  - exists st'. split; [exact E'|]. exact Hts.
Defined.

End WeightsLoader.
